(** * The session manager of [packages/services/src/session/manager.ts]

    A shallow embedding of [SessionManager]: the local map of session
    models, the registry of session connections, the poll that drives
    [requestRunning], and the public operations built on them.

    Asynchronous methods are embedded as computations over an explicit
    state (the manager's fields, the state of the remote server and the
    log of every call that leaves the manager), with a result that is
    either a value or the error the promise rejects with.  One operation
    runs from its call to the settling of its promise; other tasks of the
    event loop are not interleaved with it. *)

From Stdlib Require Import List String Bool Arith Lia.
Import ListNotations.
Local Open Scope string_scope.
Local Open Scope list_scope.

Set Implicit Arguments.

(** ** Session models *)

(** Modelled from the spec: [Kernel.IModel] is declared outside the source
    file; the spec describes the descriptor of the attached secondary
    resource as "kernel info: id + type". *)
Record KernelModel : Type := mkKernelModel {
  kernel_id : string;
  kernel_type : string
}.

(** Modelled from the spec: [Session.IModel] is declared in [./session],
    outside the source file; the spec describes it as "a unique identifier,
    a resource path, and an optional descriptor of its attached secondary
    resource".  The manager reads [id], [path] and [kernel]. *)
Record IModel : Type := mkIModel {
  id : string;
  path : string;
  kernel : option KernelModel
}.

Definition KernelModel_eqb (a b : KernelModel) : bool :=
  String.eqb (kernel_id a) (kernel_id b) &&
  String.eqb (kernel_type a) (kernel_type b).

Definition option_eqb {A : Type} (eqb : A -> A -> bool) (a b : option A) : bool :=
  match a, b with
  | Some x, Some y => eqb x y
  | None, None => true
  | _, _ => false
  end.

Definition IModel_eqb (a b : IModel) : bool :=
  String.eqb (id a) (id b) &&
  String.eqb (path a) (path b) &&
  option_eqb KernelModel_eqb (kernel a) (kernel b).

(** ** The JavaScript [Map] holding the models

    A [Map] iterates in insertion order and [set] on a present key keeps
    the key's position, so the map is an association list with one entry
    per key. *)
Module JsMap.

Definition t : Type := list (string * IModel).

Definition empty : t := [].

Fixpoint get (k : string) (m : t) : option IModel :=
  match m with
  | [] => None
  | (k', v) :: rest => if String.eqb k' k then Some v else get k rest
  end.

Definition has (k : string) (m : t) : bool :=
  match get k m with Some _ => true | None => false end.

Fixpoint set (k : string) (v : IModel) (m : t) : t :=
  match m with
  | [] => [(k, v)]
  | (k', v') :: rest =>
      if String.eqb k' k then (k', v) :: rest else (k', v') :: set k v rest
  end.

Definition size (m : t) : nat := List.length m.

Definition keys (m : t) : list string := map fst m.

Definition values (m : t) : list IModel := map snd m.

(** [new Map(entries)]: the entries are [set] one after the other. *)
Definition of_entries (entries : list (string * IModel)) : t :=
  fold_left (fun m e => set (fst e) (snd e) m) entries empty.

End JsMap.

(** ** Errors, connections, the poll *)

(** What [requestRunning] inspects of a thrown value: whether it is an
    instance of [ServerConnection.NetworkError], and the status of its
    [response] when it carries one. *)
Record Error : Type := mkError {
  isNetworkError : bool;
  response_status : option nat;
  message : string
}.

(** A [Session.ISessionConnection] held in the registry: the identity of the
    object and the [id] of the session it is bound to. *)
Record SessionConn : Type := mkSessionConn {
  sc_handle : nat;
  sc_id : string
}.

(** Modelled from the spec: [Poll] lives in [@jupyterlab/coreutils], outside
    the source file.  The spec gives it [refresh()] ("request an
    out-of-cycle run"), [tick] ("awaitable settle point for the most recent
    run") and [dispose()]; a requested run collapses with one already
    requested. *)
Record Poll : Type := mkPoll {
  poll_isDisposed : bool;
  poll_pending : bool
}.

(** Every call that leaves the manager. *)
Inductive Event : Type :=
| ApiListRunning
| ApiShutdownSession (session_id : string)
| ConnectionFailure (err : Error)
| RunningChanged (models : list IModel)
| ScUpdate (sc : SessionConn) (model : IModel)
| ScDispose (sc : SessionConn).

Inductive Result (A : Type) : Type :=
| Ok (value : A)
| Err (err : Error).
Arguments Ok {A} value.
Arguments Err {A} err.

(** The TypeError that [key in first] throws when [first] is [undefined];
    it is no [NetworkError] and carries no [response].  The text of the
    message is the engine's and nothing reads it. *)
Definition deepEqual_TypeError : Error :=
  {| isNetworkError := false;
     response_status := None;
     message := "TypeError: cannot use 'in' operator to search for a key in undefined" |}.

(** Modelled from the spec: [JSONExt.deepEqual] is imported from
    [@phosphor/coreutils], outside the source file.  The spec has it tell
    whether a fetched model is "deep-equal to the map's entry for the same
    identifier": on two models it is their structural equality.  The
    manager passes it [this._models.get(x.id)] as first argument, which is
    [undefined] when the map has no entry; the comparison of two objects
    then evaluates [key in first] for a key of the fetched model, which
    throws a TypeError. *)
Definition deepEqual (first : option IModel) (second : IModel) : Result bool :=
  match first with
  | Some m => Ok (IModel_eqb m second)
  | None => Err deepEqual_TypeError
  end.

(** [every(object, fn)] of [@phosphor/algorithm]: the values are tested in
    order up to the first that fails the test; a test that throws ends the
    loop with its error. *)
Fixpoint every {A : Type} (object : list A) (fn : A -> Result bool) : Result bool :=
  match object with
  | [] => Ok true
  | x :: rest =>
      match fn x with
      | Ok true => every rest fn
      | Ok false => Ok false
      | Err e => Err e
      end
  end.

(** The fields of [SessionManager] (with [isDisposed] of [BaseManager]). *)
Record Manager : Type := mkManager {
  _models : JsMap.t;
  _sessionConnections : list SessionConn;
  _pollModels : Poll;
  isDisposed : bool;
  next_handle : nat
}.

(** ** The collaborators outside the manager

    [listRunning] and [shutdownSession] come from [./restapi]; each call
    makes the server step and settles with a value or an error.
    [sc_emits_change sc model] tells whether the connection [sc] emits
    [propertyChanged] or [kernelChanged] while it handles [update(model)]. *)
Class Collaborators : Type := {
  Server : Type;
  listRunning : Server -> Result (list IModel) * Server;
  shutdownSession : string -> Server -> Result unit * Server;
  sc_emits_change : SessionConn -> IModel -> bool
}.

Record World `{C : Collaborators} : Type := mkWorld {
  server : Server;
  manager : Manager;
  trace : list Event
}.

(** A server for concrete runs: it lists [ts_sessions] unless
    [ts_list_error] is set; stopping a session fails with [ts_stop_error]
    for the ids in [ts_stop_fails] and removes the session otherwise. *)
Record TestServer : Type := mkTestServer {
  ts_sessions : list IModel;
  ts_list_error : option Error;
  ts_stop_fails : list string;
  ts_stop_error : Error
}.

Definition ts_listRunning (s : TestServer) : Result (list IModel) * TestServer :=
  match ts_list_error s with
  | Some e => (Err e, s)
  | None => (Ok (ts_sessions s), s)
  end.

Definition ts_shutdownSession (k : string) (s : TestServer)
  : Result unit * TestServer :=
  if existsb (String.eqb k) (ts_stop_fails s) then (Err (ts_stop_error s), s)
  else (Ok tt,
        {| ts_sessions := filter (fun x => negb (String.eqb (id x) k)) (ts_sessions s);
           ts_list_error := ts_list_error s;
           ts_stop_fails := ts_stop_fails s;
           ts_stop_error := ts_stop_error s |}).

#[export] Instance test_collaborators : Collaborators := {
  Server := TestServer;
  listRunning := ts_listRunning;
  shutdownSession := ts_shutdownSession;
  sc_emits_change := fun _ _ => true
}.

Section SessionManager.

Context `{C : Collaborators}.

(** ** Computations: state passing with a thrown error *)

Definition M (A : Type) : Type := World -> Result A * World.

Definition ret {A : Type} (a : A) : M A := fun w => (Ok a, w).

Definition throw {A : Type} (e : Error) : M A := fun w => (Err e, w).

Definition bind {A B : Type} (m : M A) (k : A -> M B) : M B :=
  fun w =>
    match m w with
    | (Ok a, w') => k a w'
    | (Err e, w') => (Err e, w')
    end.

(** [try { m } catch (error) { handler(error) }] *)
Definition try_catch {A : Type} (m : M A) (handler : Error -> M A) : M A :=
  fun w =>
    match m w with
    | (Ok a, w') => (Ok a, w')
    | (Err e, w') => handler e w'
    end.

Notation "x <- m ;; k" := (bind m (fun x => k))
  (at level 61, m at next level, right associativity).
Notation "m ;; k" := (bind m (fun _ => k))
  (at level 61, right associativity).

(** The outcome of a synchronous computation that may throw. *)
Definition lift {A : Type} (r : Result A) : M A := fun w => (r, w).

Definition gets {A : Type} (f : Manager -> A) : M A :=
  fun w => (Ok (f (manager w)), w).

Definition modify (f : Manager -> Manager) : M unit :=
  fun w => (Ok tt, {| server := server w; manager := f (manager w); trace := trace w |}).

Definition emit (e : Event) : M unit :=
  fun w => (Ok tt, {| server := server w; manager := manager w; trace := trace w ++ [e] |}).

(** [forEach] over the entries a collection has when the loop starts.  The
    callbacks the manager passes to [Set.prototype.forEach] add no entry
    and delete at most the entry being visited, so these are the entries
    the loop visits. *)
Fixpoint forEach {A : Type} (l : list A) (f : A -> M unit) : M unit :=
  match l with
  | [] => ret tt
  | x :: rest => f x ;; forEach rest f
  end.

(** [await listRunning(this.serverSettings)] *)
Definition api_listRunning : M (list IModel) :=
  fun w =>
    let (r, srv) := listRunning (server w) in
    (r, {| server := srv; manager := manager w; trace := trace w ++ [ApiListRunning] |}).

(** [shutdownSession(id, this.serverSettings)] *)
Definition api_shutdownSession (k : string) : M unit :=
  fun w =>
    let (r, srv) := shutdownSession k (server w) in
    (r, {| server := srv; manager := manager w; trace := trace w ++ [ApiShutdownSession k] |}).

(** [Promise.all(ps)]: every call of the array has been made; the result
    rejects when one of them does.  The calls settle in the order they were
    issued, so the reason is that of the first one that fails. *)
Fixpoint promise_all (ps : list (M unit)) : M unit :=
  match ps with
  | [] => ret tt
  | p :: rest =>
      fun w =>
        match p w with
        | (Ok _, w') => promise_all rest w'
        | (Err e, w') => (Err e, snd (promise_all rest w'))
        end
  end.

(** ** Field updates *)

Definition set_models (m : JsMap.t) (g : Manager) : Manager :=
  {| _models := m;
     _sessionConnections := _sessionConnections g;
     _pollModels := _pollModels g;
     isDisposed := isDisposed g;
     next_handle := next_handle g |}.

Definition set_sessionConnections (l : list SessionConn) (g : Manager) : Manager :=
  {| _models := _models g;
     _sessionConnections := l;
     _pollModels := _pollModels g;
     isDisposed := isDisposed g;
     next_handle := next_handle g |}.

Definition set_pollModels (p : Poll) (g : Manager) : Manager :=
  {| _models := _models g;
     _sessionConnections := _sessionConnections g;
     _pollModels := p;
     isDisposed := isDisposed g;
     next_handle := next_handle g |}.

Definition set_isDisposed (b : bool) (g : Manager) : Manager :=
  {| _models := _models g;
     _sessionConnections := _sessionConnections g;
     _pollModels := _pollModels g;
     isDisposed := b;
     next_handle := next_handle g |}.

Definition set_next_handle (n : nat) (g : Manager) : Manager :=
  {| _models := _models g;
     _sessionConnections := _sessionConnections g;
     _pollModels := _pollModels g;
     isDisposed := isDisposed g;
     next_handle := n |}.

(** [Set.prototype.add] and [Set.prototype.delete] on the registry; a
    connection object is identified by its handle. *)
Definition registry_add (sc : SessionConn) (l : list SessionConn) : list SessionConn :=
  if existsb (fun c => Nat.eqb (sc_handle c) (sc_handle sc)) l then l else l ++ [sc].

Definition registry_delete (sc : SessionConn) (l : list SessionConn) : list SessionConn :=
  filter (fun c => negb (Nat.eqb (sc_handle c) (sc_handle sc))) l.

(** ** The poll *)

(** Modelled from the spec: [Poll.refresh()] requests an out-of-cycle run;
    a disposed poll takes no request. *)
Definition poll_refresh : M unit :=
  modify (fun g =>
    if poll_isDisposed (_pollModels g) then g
    else set_pollModels {| poll_isDisposed := false; poll_pending := true |} g).

(** Modelled from the spec: awaiting [Poll.tick] settles after the requested
    run of the factory, with the run's outcome ("callers of
    [refreshRunning]/[requestRunning] always see the error"); a disposed
    poll runs nothing. *)
Definition poll_tick (factory : M unit) : M unit :=
  p <- gets _pollModels ;;
  if poll_isDisposed p || negb (poll_pending p) then ret tt
  else
    modify (set_pollModels {| poll_isDisposed := false; poll_pending := false |}) ;;
    factory.

(** Modelled from the spec: [Poll.dispose()] cancels what was requested. *)
Definition poll_dispose : M unit :=
  modify (set_pollModels {| poll_isDisposed := true; poll_pending := false |}).

(** [void this.refreshRunning()]: the call runs up to its first [await],
    that is [this._pollModels.refresh()]; the run itself belongs to a later
    turn of the event loop. *)
Definition void_refreshRunning : M unit := poll_refresh.

(** ** Connection callbacks *)

Definition _onDisposed (sessionConnection : SessionConn) : M unit :=
  modify (fun g =>
    set_sessionConnections
      (registry_delete sessionConnection (_sessionConnections g)) g) ;;
  void_refreshRunning.

Definition _onChanged : M unit := void_refreshRunning.

Definition _onStarted (sessionConnection : SessionConn) : M unit :=
  modify (fun g =>
    set_sessionConnections
      (registry_add sessionConnection (_sessionConnections g)) g).

(** [sc.update(model)]: the call, then the [_onChanged] the connection's
    change signals are connected to. *)
Definition sc_update (sc : SessionConn) (model : IModel) : M unit :=
  emit (ScUpdate sc model) ;;
  if sc_emits_change sc model then _onChanged else ret tt.

(** [sc.dispose()]: the call, then the [_onDisposed] the connection's
    [disposed] signal is connected to. *)
Definition sc_dispose (sc : SessionConn) : M unit :=
  emit (ScDispose sc) ;;
  _onDisposed sc.

(** ** [requestRunning] *)

Definition is_connection_failure (err : Error) : bool :=
  isNetworkError err ||
  match response_status err with
  | Some status => Nat.eqb status 503
  | None => false
  end.

(** The test of the short circuit: [&&] evaluates [every] only when the
    sizes agree. *)
Definition models_unchanged (current : JsMap.t) (models : list IModel) : Result bool :=
  if Nat.eqb (JsMap.size current) (List.length models)
  then every models (fun x => deepEqual (JsMap.get (id x) current) x)
  else Ok false.

Definition update_or_dispose (sc : SessionConn) : M unit :=
  current <- gets _models ;;
  if JsMap.has (sc_id sc) current then
    match JsMap.get (sc_id sc) current with
    | Some model => sc_update sc model
    | None => ret tt
    end
  else sc_dispose sc.

Definition requestRunning : M unit :=
  models <- try_catch api_listRunning (fun err =>
    (if is_connection_failure err then emit (ConnectionFailure err) else ret tt) ;;
    throw err) ;;
  disposed <- gets isDisposed ;;
  if disposed then ret tt
  else
    current <- gets _models ;;
    unchanged <- lift (models_unchanged current models) ;;
    if unchanged then ret tt
    else
      modify (set_models (JsMap.of_entries (map (fun x => (id x, x)) models))) ;;
      scs <- gets _sessionConnections ;;
      forEach scs update_or_dispose ;;
      emit (RunningChanged models).

(** ** Public operations *)

Definition refreshRunning : M unit :=
  poll_refresh ;;
  poll_tick requestRunning.

Definition running : M (list IModel) :=
  gets (fun g => JsMap.values (_models g)).

Definition connectTo (model : IModel) : M SessionConn :=
  h <- gets next_handle ;;
  modify (set_next_handle (S h)) ;;
  let sessionConnection := {| sc_handle := h; sc_id := id model |} in
  _onStarted sessionConnection ;;
  known <- gets (fun g => JsMap.has (id model) (_models g)) ;;
  (if negb known then void_refreshRunning else ret tt) ;;
  ret sessionConnection.

Definition shutdown (k : string) : M unit :=
  api_shutdownSession k ;;
  refreshRunning.

Definition shutdownAll : M unit :=
  refreshRunning ;;
  ks <- gets (fun g => JsMap.keys (_models g)) ;;
  promise_all (map api_shutdownSession ks) ;;
  refreshRunning.

Definition stopIfNeeded (p : string) : M unit :=
  try_catch
    (sessions <- api_listRunning ;;
     let matches := filter (fun value => String.eqb (path value) p) sessions in
     if Nat.eqb (List.length matches) 1 then
       match matches with
       | m :: _ => shutdown (id m)
       | [] => ret tt
       end
     else ret tt)
    (fun _ => ret tt).

Definition findById (k : string) : M (option IModel) :=
  current <- gets _models ;;
  if JsMap.has k current then ret (JsMap.get k current)
  else
    refreshRunning ;;
    gets (fun g => JsMap.get k (_models g)).

Definition findByPath (p : string) : M (option IModel) :=
  current <- gets _models ;;
  match find (fun m => String.eqb (path m) p) (JsMap.values current) with
  | Some m => ret (Some m)
  | None =>
      refreshRunning ;;
      refreshed <- gets _models ;;
      ret (find (fun m => String.eqb (path m) p) (JsMap.values refreshed))
  end.

(** Modelled from the spec: [super.dispose()] of [BaseManager], outside the
    source file, "marks itself disposed". *)
Definition super_dispose : M unit := modify (set_isDisposed true).

Definition dispose : M unit :=
  modify (set_models JsMap.empty) ;;
  scs <- gets _sessionConnections ;;
  forEach scs sc_dispose ;;
  poll_dispose ;;
  super_dispose.

End SessionManager.

(** ** Vocabulary of the statements *)

(** The call the reconciliation makes on a registered connection once the
    map is [current]. *)
Definition reconcile_call (current : JsMap.t) (sc : SessionConn) : Event :=
  match JsMap.get (sc_id sc) current with
  | Some model => ScUpdate sc model
  | None => ScDispose sc
  end.

Definition is_RunningChanged (e : Event) : bool :=
  match e with RunningChanged _ => true | _ => false end.

Definition is_ApiListRunning (e : Event) : bool :=
  match e with ApiListRunning => true | _ => false end.

Definition is_ApiShutdownSession (e : Event) : bool :=
  match e with ApiShutdownSession _ => true | _ => false end.

(** A call of [update] or [dispose] on the connection with handle [h]. *)
Definition is_call_on (h : nat) (e : Event) : bool :=
  match e with
  | ScUpdate sc _ => Nat.eqb (sc_handle sc) h
  | ScDispose sc => Nat.eqb (sc_handle sc) h
  | _ => false
  end.

Definition is_connection_call (e : Event) : bool :=
  match e with
  | ScUpdate _ _ => true
  | ScDispose _ => true
  | _ => false
  end.

(** The registry is a [Set] of distinct objects, each made by [connectTo]. *)
Definition registry_wf (g : Manager) : Prop :=
  NoDup (map sc_handle (_sessionConnections g)) /\
  forall c, In c (_sessionConnections g) -> sc_handle c < next_handle g.

Section Vocabulary.

Context `{C : Collaborators}.

(** The calls logged between the world [w] and a later world [w']. *)
Definition new_events (w w' : World) : list Event :=
  skipn (List.length (trace w)) (trace w').

(** The world in which the poll runs its factory: the request for a run
    has been taken. *)
Definition poll_settled (w : World) : World :=
  {| server := server w;
     manager := set_pollModels {| poll_isDisposed := false; poll_pending := false |}
                               (manager w);
     trace := trace w |}.

(** The stop calls [shutdownAll] issues for the ids [ks]: the outcome of
    each and the server they leave. *)
Fixpoint stop_each (ks : list string) (srv : Server)
  : list (string * Result unit) * Server :=
  match ks with
  | [] => ([], srv)
  | k :: rest =>
      let (r, srv1) := shutdownSession k srv in
      let (rs, srv2) := stop_each rest srv1 in
      ((k, r) :: rs, srv2)
  end.

Fixpoint first_error (rs : list (string * Result unit)) : option Error :=
  match rs with
  | [] => None
  | (_, Err e) :: _ => Some e
  | (_, Ok _) :: rest => first_error rest
  end.

(** What a lookup that misses the map does: the refresh, then the lookup
    [look] over the refreshed map. *)
Definition after_refresh (look : JsMap.t -> option IModel) (w : World)
  : Result (option IModel) * World :=
  match refreshRunning w with
  | (Ok _, w') => (Ok (look (_models (manager w'))), w')
  | (Err e, w') => (Err e, w')
  end.

(** "A second [refreshRunning] against an unchanged server-side list emits
    nothing", for the refresh that starts in [w]. *)
Definition second_refresh_silent (w : World) : Prop :=
  forall (models : list IModel) (w1 : World),
    fst (listRunning (server w)) = Ok models ->
    refreshRunning w = (Ok tt, w1) ->
    fst (listRunning (server w1)) = Ok models ->
    let w2 := snd (refreshRunning w1) in
    _models (manager w2) = _models (manager w1) /\
    filter (fun e => is_RunningChanged e || is_connection_call e) (new_events w1 w2) = [].


(** "Where at least one stop call fails and at least one succeeds, a stop
    call is attempted for every known id, the overall call fails, and every
    session whose stop succeeded and which the server removed is absent
    from a subsequent [running()]", for the call [shutdownAll()] that
    starts in [w]. *)
Definition shutdownAll_clears_stopped (w : World) : Prop :=
  forall w1 : World,
    refreshRunning w = (Ok tt, w1) ->
    let ks := JsMap.keys (_models (manager w1)) in
    let results := fst (stop_each ks (server w1)) in
    (exists k e, In (k, Err e) results) ->
    (exists k, In (k, Ok tt) results) ->
    let w' := snd (shutdownAll w) in
    filter is_ApiShutdownSession (new_events w1 w') = map ApiShutdownSession ks /\
    (exists e, fst (shutdownAll w) = Err e) /\
    forall k listed,
      In (k, Ok tt) results ->
      fst (listRunning (server w')) = Ok listed ->
      ~ In k (map id listed) ->
      ~ In k (map id (JsMap.values (_models (manager w')))).

End Vocabulary.

(** ** Concrete data for the runs evaluated below *)

Definition model_A : IModel :=
  {| id := "A"; path := "/a.ipynb"; kernel := None |}.

Definition model_A' : IModel :=
  {| id := "A"; path := "/a.ipynb";
     kernel := Some {| kernel_id := "k1"; kernel_type := "python3" |} |}.

Definition model_B : IModel :=
  {| id := "B"; path := "/b.ipynb"; kernel := None |}.

Definition model_B2 : IModel :=
  {| id := "B2"; path := "/b.ipynb"; kernel := None |}.

Definition error_500 : Error :=
  {| isNetworkError := false; response_status := Some 500; message := "Internal Server Error" |}.

Definition error_503 : Error :=
  {| isNetworkError := false; response_status := Some 503; message := "Service Unavailable" |}.

Definition error_network : Error :=
  {| isNetworkError := true; response_status := None; message := "Failed to fetch" |}.

(** The fields of a freshly constructed manager. *)
Definition new_manager : Manager :=
  {| _models := JsMap.empty;
     _sessionConnections := [];
     _pollModels := {| poll_isDisposed := false; poll_pending := false |};
     isDisposed := false;
     next_handle := 0 |}.

Definition conn_A : SessionConn := {| sc_handle := 0; sc_id := "A" |}.
Definition conn_B : SessionConn := {| sc_handle := 1; sc_id := "B" |}.

Definition model_A2 : IModel :=
  {| id := "A"; path := "/renamed.ipynb"; kernel := None |}.

(** A manager that knows [model_A] and [model_B] and holds a connection to
    each. *)
Definition manager_AB : Manager :=
  {| _models := [("A", model_A); ("B", model_B)];
     _sessionConnections := [conn_A; conn_B];
     _pollModels := {| poll_isDisposed := false; poll_pending := false |};
     isDisposed := false;
     next_handle := 2 |}.

Definition serving (sessions : list IModel) : TestServer :=
  {| ts_sessions := sessions; ts_list_error := None;
     ts_stop_fails := []; ts_stop_error := error_500 |}.

Definition failing_list (e : Error) : TestServer :=
  {| ts_sessions := [model_A; model_B]; ts_list_error := Some e;
     ts_stop_fails := []; ts_stop_error := error_500 |}.

Definition failing_stop (sessions : list IModel) (ks : list string) : TestServer :=
  {| ts_sessions := sessions; ts_list_error := None;
     ts_stop_fails := ks; ts_stop_error := error_500 |}.

Definition test_world (s : TestServer) (g : Manager) : @World test_collaborators :=
  {| server := s; manager := g; trace := [] |}.

(** ** [startNew]

    [startSession] comes from [./restapi] like the list and stop calls; it
    takes the [Session.IOptions] of the caller and settles with the model
    of the session the server started. *)
Class SessionStarter `{C : Collaborators} : Type := {
  Options : Type;
  startSession : Options -> Server -> Result IModel * Server
}.

Section StartNew.

Context `{St : SessionStarter}.

(** [await startSession({ ...options, serverSettings })]; the log, which
    has no entry for this call, is left as it is. *)
Definition api_startSession (options : Options) : M IModel :=
  fun w =>
    let (r, srv) := startSession options (server w) in
    (r, {| server := srv; manager := manager w; trace := trace w |}).

Definition startNew (options : Options) : M SessionConn :=
  bind (api_startSession options) (fun model =>
  bind refreshRunning (fun _ =>
  connectTo model)).

End StartNew.

(** The test server starts the session it is given as options, unless the
    path is empty. *)
Definition ts_startSession (m : IModel) (s : TestServer) : Result IModel * TestServer :=
  if String.eqb (path m) EmptyString then (Err (ts_stop_error s), s)
  else (Ok m,
        {| ts_sessions := ts_sessions s ++ [m];
           ts_list_error := ts_list_error s;
           ts_stop_fails := ts_stop_fails s;
           ts_stop_error := ts_stop_error s |}).

#[export] Instance test_starter : @SessionStarter test_collaborators := {
  Options := IModel;
  startSession := ts_startSession
}.

(** ** Vocabulary of the further statements *)

(** The map holds one entry per key, each model under its own id. *)
Definition models_keyed (m : JsMap.t) : Prop :=
  NoDup (JsMap.keys m) /\ forall k v, In (k, v) m -> id v = k.

Definition manager_wf (g : Manager) : Prop :=
  models_keyed (_models g) /\ registry_wf g.

(** The short-circuit test ended the run: it returned true or threw. *)
Definition ends_run (test : Result bool) : bool :=
  match test with
  | Ok false => false
  | _ => true
  end.

Definition is_ScUpdate (e : Event) : bool :=
  match e with ScUpdate _ _ => true | _ => false end.

Section Preservation.

Context `{C : Collaborators}.

(** The computation [m] keeps the property [P] of the manager, whether it
    returns or throws. *)
Definition preserves {A : Type} (P : Manager -> Prop) (m : M A) : Prop :=
  forall w : World, P (manager w) -> P (manager (snd (m w))).

End Preservation.

Definition model_C : IModel :=
  {| id := "C"; path := "/c.ipynb"; kernel := None |}.

Definition model_nowhere : IModel :=
  {| id := "D"; path := EmptyString; kernel := None |}.

Definition disposed_manager_AB : Manager :=
  {| _models := [("A", model_A); ("B", model_B)];
     _sessionConnections := [conn_A; conn_B];
     _pollModels := {| poll_isDisposed := false; poll_pending := false |};
     isDisposed := true;
     next_handle := 2 |}.

(** * Properties *)

(** ** Equality of models *)

Lemma KernelModel_eqb_eq (a b : KernelModel) :
  KernelModel_eqb a b = true <-> a = b.
Proof.
  destruct a as [i1 t1], b as [i2 t2]; unfold KernelModel_eqb; simpl.
  rewrite andb_true_iff, !String.eqb_eq.
  split; [intros [-> ->]; reflexivity | intros H; injection H; auto].
Qed.

Lemma IModel_eqb_eq (a b : IModel) : IModel_eqb a b = true <-> a = b.
Proof.
  destruct a as [i1 p1 k1], b as [i2 p2 k2]; unfold IModel_eqb; simpl.
  rewrite !andb_true_iff, !String.eqb_eq.
  split.
  - intros [[-> ->] Hk]; f_equal.
    destruct k1 as [x|], k2 as [y|]; simpl in Hk; try discriminate; auto.
    apply KernelModel_eqb_eq in Hk; subst; reflexivity.
  - intros H; injection H as -> -> ->; repeat split.
    destruct k2 as [y|]; simpl; auto. apply KernelModel_eqb_eq; reflexivity.
Qed.

Lemma deepEqual_true (o : option IModel) (x : IModel) :
  deepEqual o x = Ok true <-> o = Some x.
Proof.
  destruct o as [m|]; simpl.
  - split.
    + intros H. injection H as H. apply IModel_eqb_eq in H. subst. reflexivity.
    + intros H. injection H as ->. f_equal. apply IModel_eqb_eq. reflexivity.
  - split; discriminate.
Qed.

Lemma every_true {A : Type} (l : list A) (fn : A -> Result bool) :
  every l fn = Ok true <-> forall x, In x l -> fn x = Ok true.
Proof.
  induction l as [|a l IH]; simpl.
  - split; [intros _ x [] | reflexivity].
  - destruct (fn a) as [[|]|e] eqn:Ha.
    + rewrite IH. split.
      * intros H x [<-|Hx]; auto.
      * intros H x Hx. apply H. auto.
    + split; [discriminate|]. intros H. specialize (H a (or_introl eq_refl)). congruence.
    + split; [discriminate|]. intros H. specialize (H a (or_introl eq_refl)). congruence.
Qed.

(** ** The map *)

Module JsMapFacts.
Import JsMap.

Lemma get_set_same (k : string) (v : IModel) (m : t) : get k (set k v m) = Some v.
Proof.
  induction m as [|[k' v'] m IH]; simpl.
  - rewrite String.eqb_refl; reflexivity.
  - destruct (String.eqb_spec k' k) as [->|Hne]; simpl.
    + rewrite String.eqb_refl; reflexivity.
    + destruct (String.eqb_spec k' k); [contradiction | exact IH].
Qed.

Lemma get_set_other (k k0 : string) (v : IModel) (m : t) :
  k <> k0 -> get k0 (set k v m) = get k0 m.
Proof.
  intros Hne. induction m as [|[k' v'] m IH]; simpl.
  - destruct (String.eqb_spec k k0); [contradiction | reflexivity].
  - destruct (String.eqb_spec k' k) as [->|Hk]; simpl.
    + destruct (String.eqb_spec k k0); [contradiction | reflexivity].
    + rewrite IH; reflexivity.
Qed.

Lemma keys_set_present (k : string) (v : IModel) (m : t) :
  In k (keys m) -> keys (set k v m) = keys m.
Proof.
  induction m as [|[k' v'] m IH]; simpl; [tauto|].
  intros Hin. destruct (String.eqb_spec k' k) as [->|Hk]; simpl; [reflexivity|].
  f_equal. apply IH. destruct Hin; [contradiction | assumption].
Qed.

Lemma set_absent (k : string) (v : IModel) (m : t) :
  ~ In k (keys m) -> set k v m = m ++ [(k, v)].
Proof.
  induction m as [|[k' v'] m IH]; simpl; [reflexivity|].
  intros Hin. destruct (String.eqb_spec k' k) as [->|Hk]; [tauto|].
  f_equal. apply IH. tauto.
Qed.

Lemma NoDup_keys_set (k : string) (v : IModel) (m : t) :
  NoDup (keys m) -> NoDup (keys (set k v m)).
Proof.
  intros Hnd. destruct (in_dec string_dec k (keys m)) as [Hin|Hnin].
  - rewrite keys_set_present; assumption.
  - rewrite set_absent by assumption. unfold keys. rewrite map_app; simpl.
    apply NoDup_app; [exact Hnd | repeat constructor; simpl; tauto |].
    intros x Hx [<-|[]]. exact (Hnin Hx).
Qed.

Lemma NoDup_keys_fold_set (entries : list (string * IModel)) (m : t) :
  NoDup (keys m) ->
  NoDup (keys (fold_left (fun m e => set (fst e) (snd e) m) entries m)).
Proof.
  revert m; induction entries as [|[k v] l IH]; intros m Hnd; simpl; [exact Hnd|].
  apply IH, NoDup_keys_set, Hnd.
Qed.

Lemma NoDup_keys_of_entries (entries : list (string * IModel)) :
  NoDup (keys (of_entries entries)).
Proof. apply (NoDup_keys_fold_set entries empty). constructor. Qed.

Lemma get_fold_set_notin (k : string) (entries : list (string * IModel)) (m : t) :
  ~ In k (map fst entries) ->
  get k (fold_left (fun m e => set (fst e) (snd e) m) entries m) = get k m.
Proof.
  revert m; induction entries as [|[k' v] l IH]; intros m Hnin; simpl in *; [reflexivity|].
  rewrite IH by tauto. apply get_set_other. tauto.
Qed.

(** The entry of a key holds the value of the last entry given for it. *)
Lemma get_of_entries_last (k : string) (v : IModel)
      (before after : list (string * IModel)) :
  ~ In k (map fst after) ->
  get k (of_entries (before ++ (k, v) :: after)) = Some v.
Proof.
  intros Hnin. unfold of_entries. rewrite fold_left_app. simpl.
  rewrite get_fold_set_notin by assumption. apply get_set_same.
Qed.

Lemma in_keys_set (k k0 : string) (v : IModel) (m : t) :
  In k0 (keys (set k v m)) <-> In k0 (keys m) \/ k0 = k.
Proof.
  destruct (in_dec string_dec k (keys m)) as [Hin|Hnin].
  - rewrite keys_set_present by assumption. split; [auto | intros [H| ->]; assumption].
  - rewrite set_absent by assumption. unfold keys. rewrite map_app, in_app_iff. simpl.
    split; intros [H|H]; subst; auto.
    destruct H as [<-|[]]; auto.
Qed.

Lemma in_keys_fold_set (k : string) (entries : list (string * IModel)) (m : t) :
  In k (keys (fold_left (fun m e => set (fst e) (snd e) m) entries m)) <->
  In k (keys m) \/ In k (map fst entries).
Proof.
  revert m; induction entries as [|[k' v] l IH]; intros m; simpl; [tauto|].
  rewrite IH, in_keys_set. intuition congruence.
Qed.

Lemma in_keys_of_entries (k : string) (entries : list (string * IModel)) :
  In k (keys (of_entries entries)) <-> In k (map fst entries).
Proof. unfold of_entries. rewrite in_keys_fold_set. simpl. tauto. Qed.

(** Without a repeated key, [new Map(entries)] holds the entries as given. *)
Lemma fold_set_NoDup (entries : list (string * IModel)) (m : t) :
  NoDup (keys m ++ map fst entries) ->
  fold_left (fun m e => set (fst e) (snd e) m) entries m = m ++ entries.
Proof.
  revert m; induction entries as [|[k v] l IH]; intros m Hnd; simpl.
  - rewrite app_nil_r; reflexivity.
  - simpl in Hnd. pose proof (NoDup_remove_2 _ _ _ Hnd) as Hk.
    rewrite set_absent by (intros H; apply Hk, in_or_app; auto).
    rewrite IH.
    + rewrite <- app_assoc; reflexivity.
    + unfold keys. rewrite map_app, <- app_assoc. exact Hnd.
Qed.

Lemma of_entries_NoDup (entries : list (string * IModel)) :
  NoDup (map fst entries) -> of_entries entries = entries.
Proof. intros Hnd. unfold of_entries. rewrite fold_set_NoDup; auto. Qed.

Lemma get_entries_NoDup (ms : list IModel) (x : IModel) :
  NoDup (map id ms) -> In x ms ->
  get (id x) (map (fun y => (id y, y)) ms) = Some x.
Proof.
  induction ms as [|y ms IH]; simpl; [tauto|].
  intros Hnd [->|Hin].
  - rewrite String.eqb_refl; reflexivity.
  - inversion Hnd as [|? ? Hy Hnd']; subst.
    destruct (String.eqb_spec (id y) (id x)) as [E|_]; [|auto].
    exfalso; apply Hy. rewrite E. apply in_map; assumption.
Qed.

(** Each repeated key makes [new Map(entries)] smaller than the array. *)
Lemma size_fold_set (entries : list (string * IModel)) (m : t) :
  size (fold_left (fun m e => set (fst e) (snd e) m) entries m)
  <= size m + List.length entries.
Proof.
  revert m; induction entries as [|[k v] l IH]; intros m; simpl; [lia|].
  etransitivity; [apply IH|].
  destruct (in_dec string_dec k (keys m)) as [Hin|Hnin].
  - assert (size (set k v m) = size m) as ->; [|lia].
    unfold size. rewrite <- (length_map fst (set k v m)), <- (length_map fst m).
    fold (keys (set k v m)). rewrite keys_set_present; auto.
  - rewrite set_absent by assumption. unfold size. rewrite length_app. simpl. lia.
Qed.

Lemma size_of_entries_dup (k : string) (v v' : IModel)
      (l1 l2 l3 : list (string * IModel)) :
  size (of_entries (l1 ++ (k, v) :: l2 ++ (k, v') :: l3))
  < List.length (l1 ++ (k, v) :: l2 ++ (k, v') :: l3).
Proof.
  unfold of_entries.
  rewrite fold_left_app. simpl. rewrite fold_left_app. simpl.
  set (m1 := fold_left _ l1 empty).
  set (m2 := fold_left _ l2 (set k v m1)).
  assert (H1 : size m1 <= List.length l1) by (apply (size_fold_set l1 empty)).
  assert (H2 : size m2 <= size (set k v m1) + List.length l2) by apply size_fold_set.
  assert (H3 : size (set k v m1) <= size m1 + 1).
  { pose proof (size_fold_set [(k, v)] m1) as H; simpl in H. exact H. }
  assert (Hin : In k (keys m2)).
  { apply in_keys_fold_set. left. apply in_keys_set. auto. }
  assert (H4 : size (set k v' m2) = size m2).
  { unfold size. rewrite <- (length_map fst (set k v' m2)), <- (length_map fst m2).
    fold (keys (set k v' m2)). rewrite keys_set_present; auto. }
  pose proof (size_fold_set l3 (set k v' m2)) as H5.
  rewrite !length_app; simpl. rewrite !length_app; simpl. lia.
Qed.

Lemma get_fold_set_in (k : string) (v : IModel)
      (entries : list (string * IModel)) (m : t) :
  get k (fold_left (fun m e => set (fst e) (snd e) m) entries m) = Some v ->
  In (k, v) entries \/ get k m = Some v.
Proof.
  revert m; induction entries as [|[k' v'] l IH]; intros m; simpl; [auto|].
  intros H. destruct (IH _ H) as [Hin|Hget]; [auto|].
  destruct (string_dec k' k) as [->|Hne].
  - rewrite get_set_same in Hget. injection Hget as ->. auto.
  - rewrite get_set_other in Hget by assumption. auto.
Qed.

End JsMapFacts.

(** ** [requestRunning] *)

Section Reconciliation.

Context `{C : Collaborators}.

#[local] Arguments models_unchanged : simpl never.
#[local] Arguments is_connection_failure : simpl never.
#[local] Arguments JsMap.of_entries : simpl never.

Ltac run_monad :=
  unfold bind, try_catch, lift, gets, modify, emit, ret, throw; simpl.

Lemma is_connection_failure_iff (err : Error) :
  is_connection_failure err = true <->
  isNetworkError err = true \/ response_status err = Some 503.
Proof.
  unfold is_connection_failure. rewrite orb_true_iff.
  destruct (response_status err) as [s|].
  - rewrite Nat.eqb_eq. split; intros [H|H]; auto; right; congruence.
  - split; intros [H|H]; auto; discriminate.
Qed.

Lemma models_unchanged_iff (current : JsMap.t) (models : list IModel) :
  models_unchanged current models = Ok true <->
  JsMap.size current = List.length models /\
  forall x, In x models -> JsMap.get (id x) current = Some x.
Proof.
  unfold models_unchanged.
  destruct (Nat.eqb_spec (JsMap.size current) (List.length models)) as [E|E].
  - rewrite every_true. split.
    + intros H. split; [exact E|]. intros x Hx. apply deepEqual_true; auto.
    + intros [_ H] x Hx. apply deepEqual_true; auto.
  - split; [discriminate | intros [H _]; contradiction].
Qed.

(** The outcome of a failed fetch. *)
Lemma requestRunning_failure (w : World) (err : Error) (srv : Server) :
  listRunning (server w) = (Err err, srv) ->
  requestRunning w =
    (Err err,
     {| server := srv; manager := manager w;
        trace := trace w ++ ApiListRunning ::
                 (if is_connection_failure err then [ConnectionFailure err] else []) |}).
Proof.
  intros Hlist. unfold requestRunning, api_listRunning. run_monad.
  rewrite Hlist. destruct (is_connection_failure err); simpl.
  - rewrite <- app_assoc. reflexivity.
  - reflexivity.
Qed.

(** The outcome of a fetch on a disposed manager. *)
Lemma requestRunning_disposed (w : World) (models : list IModel) (srv : Server) :
  listRunning (server w) = (Ok models, srv) ->
  isDisposed (manager w) = true ->
  requestRunning w =
    (Ok tt, {| server := srv; manager := manager w; trace := trace w ++ [ApiListRunning] |}).
Proof.
  intros Hlist Hd. unfold requestRunning, api_listRunning. run_monad.
  rewrite Hlist. simpl. rewrite Hd. reflexivity.
Qed.

(** The outcome of a fetch that passes the short-circuit test. *)
Lemma requestRunning_short_circuit (w : World) (models : list IModel) (srv : Server) :
  listRunning (server w) = (Ok models, srv) ->
  isDisposed (manager w) = false ->
  models_unchanged (_models (manager w)) models = Ok true ->
  requestRunning w =
    (Ok tt, {| server := srv; manager := manager w; trace := trace w ++ [ApiListRunning] |}).
Proof.
  intros Hlist Hd Hsame. unfold requestRunning, api_listRunning. run_monad.
  rewrite Hlist. simpl. rewrite Hd. simpl. rewrite Hsame. reflexivity.
Qed.

(** The outcome of a fetch whose short-circuit test throws: the error
    leaves [requestRunning], which has done nothing but the fetch. *)
Lemma requestRunning_test_throws (w : World) (models : list IModel) (srv : Server)
      (e : Error) :
  listRunning (server w) = (Ok models, srv) ->
  isDisposed (manager w) = false ->
  models_unchanged (_models (manager w)) models = Err e ->
  requestRunning w =
    (Err e, {| server := srv; manager := manager w; trace := trace w ++ [ApiListRunning] |}).
Proof.
  intros Hlist Hd Hthrow. unfold requestRunning, api_listRunning. run_monad.
  rewrite Hlist. simpl. rewrite Hd. simpl. rewrite Hthrow. reflexivity.
Qed.

(** One step of the loop over the registry. *)
Lemma update_or_dispose_step (sc : SessionConn) (w : World) :
  exists g,
    update_or_dispose sc w =
      (Ok tt, {| server := server w; manager := g;
                 trace := trace w ++ [reconcile_call (_models (manager w)) sc] |}) /\
    _models g = _models (manager w) /\
    isDisposed g = isDisposed (manager w) /\
    next_handle g = next_handle (manager w) /\
    poll_isDisposed (_pollModels g) = poll_isDisposed (_pollModels (manager w)) /\
    _sessionConnections g =
      if JsMap.has (sc_id sc) (_models (manager w))
      then _sessionConnections (manager w)
      else registry_delete sc (_sessionConnections (manager w)).
Proof.
  unfold update_or_dispose, reconcile_call, JsMap.has.
  destruct w as [srv g tr]; simpl.
  destruct (JsMap.get (sc_id sc) (_models g)) as [model|] eqn:Hget.
  - unfold sc_update, _onChanged, void_refreshRunning, poll_refresh. run_monad.
    rewrite Hget. simpl.
    destruct (sc_emits_change sc model); simpl.
    + destruct (poll_isDisposed (_pollModels g)) eqn:Hp; simpl;
        eexists; (split; [reflexivity | simpl; rewrite ?Hp; auto 10]).
    + eexists; split; [reflexivity | auto 10].
  - unfold sc_dispose, _onDisposed, void_refreshRunning, poll_refresh. run_monad.
    rewrite Hget. simpl.
    destruct (poll_isDisposed (_pollModels g)) eqn:Hp; simpl;
      eexists; (split; [reflexivity | simpl; rewrite ?Hp; auto 10]).
Qed.

(** The loop over the registry: one call per connection, in order; nothing
    but the registry and the poll's request flag changes. *)
Lemma forEach_update_or_dispose (l : list SessionConn) :
  forall w : World,
  exists g,
    forEach l update_or_dispose w =
      (Ok tt, {| server := server w; manager := g;
                 trace := trace w ++ map (reconcile_call (_models (manager w))) l |}) /\
    _models g = _models (manager w) /\
    isDisposed g = isDisposed (manager w) /\
    next_handle g = next_handle (manager w) /\
    poll_isDisposed (_pollModels g) = poll_isDisposed (_pollModels (manager w)) /\
    _sessionConnections g =
      fold_left
        (fun r sc => if JsMap.has (sc_id sc) (_models (manager w)) then r
                     else registry_delete sc r)
        l (_sessionConnections (manager w)).
Proof.
  induction l as [|sc l IH]; intros w.
  - exists (manager w). simpl. unfold ret. rewrite app_nil_r.
    destruct w; simpl; auto 10.
  - destruct (update_or_dispose_step sc w) as (g1 & Hstep & Hm & Hd & Hn & Hp & Hr).
    destruct (IH {| server := server w; manager := g1;
                    trace := trace w ++ [reconcile_call (_models (manager w)) sc] |})
      as (g2 & Hrest & Hm2 & Hd2 & Hn2 & Hp2 & Hr2).
    simpl in *. exists g2.
    unfold bind. rewrite Hstep, Hrest, Hm, <- app_assoc. simpl.
    rewrite Hr2, Hr, Hm. repeat split; congruence.
Qed.

(** The outcome of a fetch whose short-circuit test returns false. *)
Lemma requestRunning_replace (w : World) (models : list IModel) (srv : Server) :
  listRunning (server w) = (Ok models, srv) ->
  isDisposed (manager w) = false ->
  models_unchanged (_models (manager w)) models = Ok false ->
  let fresh := JsMap.of_entries (map (fun x => (id x, x)) models) in
  exists g,
    requestRunning w =
      (Ok tt,
       {| server := srv; manager := g;
          trace := trace w ++ ApiListRunning ::
                   map (reconcile_call fresh) (_sessionConnections (manager w)) ++
                   [RunningChanged models] |}) /\
    _models g = fresh /\
    isDisposed g = false /\
    next_handle g = next_handle (manager w) /\
    poll_isDisposed (_pollModels g) = poll_isDisposed (_pollModels (manager w)) /\
    _sessionConnections g =
      fold_left
        (fun r sc => if JsMap.has (sc_id sc) fresh then r else registry_delete sc r)
        (_sessionConnections (manager w)) (_sessionConnections (manager w)).
Proof.
  intros Hlist Hd Hdiff fresh.
  destruct (forEach_update_or_dispose (_sessionConnections (manager w))
              {| server := srv; manager := set_models fresh (manager w);
                 trace := trace w ++ [ApiListRunning] |})
    as (g & Hloop & Hm & Hd' & Hn & Hp & Hr).
  simpl in *. exists g.
  unfold requestRunning, api_listRunning. run_monad.
  rewrite Hlist. simpl. rewrite Hd. simpl. rewrite Hdiff. simpl.
  fold fresh. rewrite Hloop. simpl.
  rewrite <- !app_assoc. simpl. repeat split; congruence.
Qed.

Lemma new_events_app (w w' : World) (evs : list Event) :
  trace w' = trace w ++ evs -> new_events w w' = evs.
Proof.
  unfold new_events. intros ->. induction (trace w); simpl; auto.
Qed.

Lemma filter_reconcile_calls (f : Event -> bool) (current : JsMap.t)
      (l : list SessionConn) :
  (forall sc model, f (ScUpdate sc model) = false) ->
  (forall sc, f (ScDispose sc) = false) ->
  filter f (map (reconcile_call current) l) = [].
Proof.
  intros Hu Hd. induction l as [|sc l IH]; simpl; [reflexivity|].
  unfold reconcile_call at 1.
  destruct (JsMap.get (sc_id sc) current); rewrite ?Hu, ?Hd; exact IH.
Qed.

(** A connection of a duplicate-free registry gets the one call meant for
    it. *)
Lemma filter_call_on (current : JsMap.t) (l : list SessionConn) (sc : SessionConn) :
  NoDup (map sc_handle l) -> In sc l ->
  filter (is_call_on (sc_handle sc)) (map (reconcile_call current) l)
  = [reconcile_call current sc].
Proof.
  assert (Hcall : forall c h, is_call_on h (reconcile_call current c)
                              = Nat.eqb (sc_handle c) h).
  { intros c h. unfold reconcile_call.
    destruct (JsMap.get (sc_id c) current); reflexivity. }
  assert (Hnone : forall l', ~ In (sc_handle sc) (map sc_handle l') ->
            filter (is_call_on (sc_handle sc)) (map (reconcile_call current) l') = []).
  { induction l' as [|c l' IH]; simpl; intros Hnin; [reflexivity|].
    rewrite Hcall. destruct (Nat.eqb_spec (sc_handle c) (sc_handle sc)) as [E|_].
    - exfalso; apply Hnin; auto.
    - apply IH. tauto. }
  induction l as [|c l IH]; simpl; [tauto|].
  intros Hnd Hin. inversion Hnd as [|? ? Hc Hnd']; subst.
  rewrite Hcall. destruct Hin as [->|Hin].
  - rewrite Nat.eqb_refl. f_equal. apply Hnone. exact Hc.
  - destruct (Nat.eqb_spec (sc_handle c) (sc_handle sc)) as [E|_].
    + exfalso; apply Hc. rewrite E. apply in_map; exact Hin.
    + apply IH; assumption.
Qed.

(** C1: when the list operation fails, [requestRunning] fails with the same
    error and leaves the manager, and so its map of models, as it was; when
    the error is a network error or carries status 503, the log of the call
    is the fetch followed by the connection-failure notification carrying
    that error, and otherwise the fetch alone. *)
Theorem requestRunning_failed_fetch (w : World) (err : Error) (srv : Server)
  (Hlist : listRunning (server w) = (Err err, srv)) :
  fst (requestRunning w) = Err err /\
  manager (snd (requestRunning w)) = manager w /\
  _models (manager (snd (requestRunning w))) = _models (manager w) /\
  (isNetworkError err = true \/ response_status err = Some 503 ->
   new_events w (snd (requestRunning w)) = [ApiListRunning; ConnectionFailure err]) /\
  (~ (isNetworkError err = true \/ response_status err = Some 503) ->
   new_events w (snd (requestRunning w)) = [ApiListRunning]).
Proof.
  rewrite (requestRunning_failure w Hlist). simpl.
  repeat split; intros H.
  - apply is_connection_failure_iff in H.
    apply new_events_app. simpl. rewrite H. reflexivity.
  - apply new_events_app. simpl.
    destruct (is_connection_failure err) eqn:E; [|reflexivity].
    exfalso. apply H, is_connection_failure_iff, E.
Qed.

(** What the replacement of the map leaves and logs. *)
Lemma requestRunning_replace_log (w : World) (models : list IModel) (srv : Server) :
  listRunning (server w) = (Ok models, srv) ->
  isDisposed (manager w) = false ->
  models_unchanged (_models (manager w)) models = Ok false ->
  let fresh := JsMap.of_entries (map (fun x => (id x, x)) models) in
  fst (requestRunning w) = Ok tt /\
  _models (manager (snd (requestRunning w))) = fresh /\
  new_events w (snd (requestRunning w)) =
    ApiListRunning ::
    map (reconcile_call fresh) (_sessionConnections (manager w)) ++
    [RunningChanged models].
Proof.
  intros Hlist Hlive Hdiff fresh.
  destruct (requestRunning_replace w Hlist Hlive Hdiff) as (g & Hrun & Hm & _).
  fold fresh in Hrun, Hm. rewrite Hrun. simpl.
  split; [reflexivity|]. split; [exact Hm|].
  apply new_events_app. reflexivity.
Qed.

Lemma keys_of_fetched (models : list IModel) (k : string) :
  In k (JsMap.keys (JsMap.of_entries (map (fun x => (id x, x)) models))) <->
  In k (map id models).
Proof.
  rewrite JsMapFacts.in_keys_of_entries, map_map. simpl. tauto.
Qed.

(** The test throws on the first fetched model whose id the map lacks,
    when the sizes agree and the models before it are the map's entries. *)
Lemma models_unchanged_throws (current : JsMap.t) (before after : list IModel)
      (x : IModel) :
  JsMap.size current = List.length (before ++ x :: after) ->
  (forall y, In y before -> JsMap.get (id y) current = Some y) ->
  JsMap.get (id x) current = None ->
  models_unchanged current (before ++ x :: after) = Err deepEqual_TypeError.
Proof.
  intros Hsize Hbefore Hnew. unfold models_unchanged.
  rewrite (proj2 (Nat.eqb_eq _ _) Hsize). clear Hsize.
  induction before as [|y before IH]; simpl.
  - rewrite Hnew. reflexivity.
  - rewrite (proj2 (deepEqual_true _ _) (Hbefore y (or_introl eq_refl))).
    apply IH. intros z Hz. apply Hbefore. right. exact Hz.
Qed.

(** C3: the claim does not hold of a fetched list that is as long as the
    map is large and brings an id the map does not have before any model
    that differs from the map's entry.  The short-circuit test, which
    neither passes nor returns false there, throws on that model outside
    the [try] block: [requestRunning] rejects with the TypeError having
    done nothing but the fetch, so that the map is not replaced, no
    connection is updated or disposed and no running-changed notification
    is emitted. *)
Theorem requestRunning_new_id_rejects (w : World) (models : list IModel) (srv : Server)
  (before after : list IModel) (x : IModel)
  (Hlist : listRunning (server w) = (Ok models, srv))
  (Hlive : isDisposed (manager w) = false)
  (Hsize : JsMap.size (_models (manager w)) = List.length models)
  (Hsplit : models = before ++ x :: after)
  (Hbefore : forall y, In y before -> JsMap.get (id y) (_models (manager w)) = Some y)
  (Hnew : JsMap.get (id x) (_models (manager w)) = None) :
  requestRunning w =
    (Err deepEqual_TypeError,
     {| server := srv; manager := manager w; trace := trace w ++ [ApiListRunning] |}) /\
  new_events w (snd (requestRunning w)) = [ApiListRunning].
Proof.
  assert (Hthrow : models_unchanged (_models (manager w)) models = Err deepEqual_TypeError).
  { subst models. apply models_unchanged_throws; assumption. }
  rewrite (requestRunning_test_throws w Hlist Hlive Hthrow).
  split; [reflexivity | apply new_events_app; reflexivity].
Qed.

(** The replacement: a successful fetch on a live manager whose
    short-circuit test returns false replaces the map with [new Map] of
    the fetched models keyed by id, then makes one call per registered
    connection, in registry order ([update] with the model the new map
    holds for its id, [dispose] when the new map has none), and last emits
    the one running-changed notification, whose payload is the fetched
    list. *)
Theorem requestRunning_changed_fetch (w : World) (models : list IModel) (srv : Server)
  (Hlist : listRunning (server w) = (Ok models, srv))
  (Hlive : isDisposed (manager w) = false)
  (Hdiff : models_unchanged (_models (manager w)) models = Ok false) :
  let w' := snd (requestRunning w) in
  let fresh := JsMap.of_entries (map (fun x => (id x, x)) models) in
  fst (requestRunning w) = Ok tt /\
  _models (manager w') = fresh /\
  (forall k, In k (JsMap.keys fresh) <-> In k (map id models)) /\
  (forall k m, JsMap.get k fresh = Some m -> In m models /\ id m = k) /\
  new_events w w' =
    ApiListRunning ::
    map (reconcile_call fresh) (_sessionConnections (manager w)) ++
    [RunningChanged models] /\
  filter is_RunningChanged (new_events w w') = [RunningChanged models].
Proof.
  intros w' fresh. subst w'.
  destruct (requestRunning_replace_log w Hlist Hlive Hdiff) as (Hok & Hm & Hev).
  fold fresh in Hm, Hev.
  split; [exact Hok|]. split; [exact Hm|]. split; [|split; [|split; [exact Hev|]]].
  - intros k. apply keys_of_fetched.
  - intros k m Hget. unfold fresh, JsMap.of_entries in Hget.
    apply JsMapFacts.get_fold_set_in in Hget. destruct Hget as [Hin|Hget]; [|discriminate].
    apply in_map_iff in Hin. destruct Hin as (x & Hx & Hin). injection Hx as <- <-. auto.
  - rewrite Hev. simpl. rewrite filter_app, filter_reconcile_calls by reflexivity.
    reflexivity.
Qed.

(** C4: when a fetched list with two or more models of one id reaches the
    replacement of the map, the short-circuit test having returned false,
    the new map has one entry for that id, holding
    the last of these models in fetch order, and a registered connection
    bound to that id gets exactly one call, the [update] with that model. *)
Theorem requestRunning_duplicate_ids (w : World) (models : list IModel) (srv : Server)
  (k : string) (before after : list IModel) (last : IModel) (sc : SessionConn)
  (Hlist : listRunning (server w) = (Ok models, srv))
  (Hlive : isDisposed (manager w) = false)
  (Hdiff : models_unchanged (_models (manager w)) models = Ok false)
  (Hdup : 2 <= List.length (filter (fun x => String.eqb (id x) k) models))
  (Hsplit : models = before ++ last :: after)
  (Hlast : id last = k)
  (Hafter : forall x, In x after -> id x <> k)
  (Hset : NoDup (map sc_handle (_sessionConnections (manager w))))
  (Hreg : In sc (_sessionConnections (manager w)))
  (Hbound : sc_id sc = k) :
  let w' := snd (requestRunning w) in
  count_occ string_dec (JsMap.keys (_models (manager w'))) k = 1 /\
  JsMap.get k (_models (manager w')) = Some last /\
  filter (is_call_on (sc_handle sc)) (new_events w w') = [ScUpdate sc last].
Proof.
  intros w'. subst w'.
  destruct (requestRunning_replace_log w Hlist Hlive Hdiff) as (_ & Hm & Hev).
  rewrite Hm, Hev. clear Hm Hev.
  assert (Hget : JsMap.get k (JsMap.of_entries (map (fun x => (id x, x)) models))
                 = Some last).
  { rewrite Hsplit, map_app. simpl. rewrite Hlast.
    apply JsMapFacts.get_of_entries_last.
    rewrite map_map. simpl. intros Hin. apply in_map_iff in Hin.
    destruct Hin as (x & Hx & Hin). exact (Hafter x Hin Hx). }
  split; [|split; [exact Hget|]].
  - apply NoDup_count_occ'; [apply JsMapFacts.NoDup_keys_of_entries|].
    apply keys_of_fetched. rewrite Hsplit, map_app, in_app_iff. simpl. auto.
  - simpl. rewrite filter_app. simpl.
    rewrite filter_call_on by assumption.
    unfold reconcile_call. rewrite Hbound, Hget. reflexivity.
Qed.

End Reconciliation.

Lemma requestRunning_failed_fetch_witness :
  (let w := test_world (failing_list error_503) manager_AB in
   fst (requestRunning w) = Err error_503 /\
   manager (snd (requestRunning w)) = manager_AB /\
   new_events w (snd (requestRunning w)) = [ApiListRunning; ConnectionFailure error_503]) /\
  (let w := test_world (failing_list error_network) manager_AB in
   fst (requestRunning w) = Err error_network /\
   manager (snd (requestRunning w)) = manager_AB /\
   new_events w (snd (requestRunning w)) = [ApiListRunning; ConnectionFailure error_network]) /\
  (let w := test_world (failing_list error_500) manager_AB in
   fst (requestRunning w) = Err error_500 /\
   manager (snd (requestRunning w)) = manager_AB /\
   new_events w (snd (requestRunning w)) = [ApiListRunning]).
Proof.
  split; [|split]; intros w.
  - destruct (@requestRunning_failed_fetch test_collaborators w error_503
                (failing_list error_503) eq_refl) as (H1 & H2 & _ & H4 & _).
    split; [exact H1 | split; [exact H2 |]].
    apply H4. right. reflexivity.
  - destruct (@requestRunning_failed_fetch test_collaborators w error_network
                (failing_list error_network) eq_refl) as (H1 & H2 & _ & H4 & _).
    split; [exact H1 | split; [exact H2 |]].
    apply H4. left. reflexivity.
  - destruct (@requestRunning_failed_fetch test_collaborators w error_500
                (failing_list error_500) eq_refl) as (H1 & H2 & _ & _ & H5).
    split; [exact H1 | split; [exact H2 |]].
    apply H5. simpl. intros [H|H]; discriminate H.
Defined.

Lemma requestRunning_new_id_rejects_witness :
  let w := test_world (serving [model_A; model_C]) manager_AB in
  requestRunning w =
    (Err deepEqual_TypeError,
     {| server := serving [model_A; model_C]; manager := manager_AB;
        trace := [ApiListRunning] |}) /\
  new_events w (snd (requestRunning w)) = [ApiListRunning] /\
  fst (running (snd (requestRunning w))) = Ok [model_A; model_B].
Proof.
  intros w.
  destruct (@requestRunning_new_id_rejects test_collaborators w [model_A; model_C]
              (serving [model_A; model_C]) [model_A] [] model_C
              eq_refl eq_refl eq_refl eq_refl) as (Hrun & Hev).
  - intros y [<-|[]]. reflexivity.
  - reflexivity.
  - split; [exact Hrun|]. split; [exact Hev|]. rewrite Hrun. reflexivity.
Defined.

Lemma requestRunning_changed_fetch_witness :
  let w := test_world (serving [model_A'; model_B2]) manager_AB in
  _models (manager (snd (requestRunning w))) = [("A", model_A'); ("B2", model_B2)] /\
  new_events w (snd (requestRunning w)) =
    [ApiListRunning; ScUpdate conn_A model_A'; ScDispose conn_B;
     RunningChanged [model_A'; model_B2]].
Proof.
  intros w.
  destruct (@requestRunning_changed_fetch test_collaborators w [model_A'; model_B2]
              (serving [model_A'; model_B2]) eq_refl eq_refl eq_refl)
    as (_ & Hm & _ & _ & Hev & _).
  split; [exact Hm | exact Hev].
Defined.

Lemma requestRunning_duplicate_ids_witness :
  let w := test_world (serving [model_A; model_B; model_A2]) manager_AB in
  let w' := snd (requestRunning w) in
  count_occ string_dec (JsMap.keys (_models (manager w'))) "A" = 1 /\
  JsMap.get "A" (_models (manager w')) = Some model_A2 /\
  filter (is_call_on 0) (new_events w w') = [ScUpdate conn_A model_A2].
Proof.
  intros w.
  apply (@requestRunning_duplicate_ids test_collaborators w
           [model_A; model_B; model_A2] (serving [model_A; model_B; model_A2])
           "A" [model_A; model_B] [] model_A2 conn_A).
  - reflexivity.
  - reflexivity.
  - reflexivity.
  - simpl. lia.
  - reflexivity.
  - reflexivity.
  - intros x [].
  - repeat constructor; simpl; intuition discriminate.
  - simpl. auto.
  - reflexivity.
Defined.

(** C9: with the map [{A -> model_A, B -> model_B}] and the fetched list
    [[model_A; model_A]], whose ids do not cover the map's keys, the
    short-circuit test passes: [requestRunning] succeeds and leaves the
    manager, still listing [B], as it was, calls no connection and emits no
    running-changed notification; the fetch is all it logs. *)
Theorem requestRunning_stale_short_circuit :
  let fetched := [model_A; model_A] in
  let w := test_world (serving fetched) manager_AB in
  JsMap.size (_models manager_AB) = List.length fetched /\
  (forall x, In x fetched ->
             deepEqual (JsMap.get (id x) (_models manager_AB)) x = Ok true) /\
  models_unchanged (_models manager_AB) fetched = Ok true /\
  In "B" (JsMap.keys (_models manager_AB)) /\
  ~ In "B" (map id fetched) /\
  requestRunning w =
    (Ok tt, {| server := serving fetched; manager := manager_AB;
               trace := [ApiListRunning] |}) /\
  fst (running (snd (requestRunning w))) = Ok [model_A; model_B].
Proof.
  simpl. repeat split; auto.
  - intros x [<-|[<-|[]]]; reflexivity.
  - intros [H|[H|[]]]; discriminate.
Qed.

(** ** [refreshRunning] *)

Section Refresh.

Context `{C : Collaborators}.

#[local] Arguments models_unchanged : simpl never.
#[local] Arguments JsMap.of_entries : simpl never.

(** On a live poll, [refreshRunning] is one run of [requestRunning]. *)
Lemma refreshRunning_live (w : World) :
  poll_isDisposed (_pollModels (manager w)) = false ->
  refreshRunning w = requestRunning (poll_settled w).
Proof.
  intros Hp. unfold refreshRunning, poll_refresh, poll_tick, bind, gets, modify, ret.
  simpl. rewrite Hp. simpl. reflexivity.
Qed.

Lemma refreshRunning_poll_disposed (w : World) :
  poll_isDisposed (_pollModels (manager w)) = true ->
  refreshRunning w = (Ok tt, w).
Proof.
  intros Hp. unfold refreshRunning, poll_refresh, poll_tick, bind, gets, modify, ret.
  simpl. rewrite Hp. simpl. rewrite Hp. simpl. destruct w; reflexivity.
Qed.

(** Whatever the fetch gives, a run of [requestRunning] logs one fetch and
    only adds to the log. *)
Lemma requestRunning_log (w : World) :
  exists evs,
    trace (snd (requestRunning w)) = trace w ++ ApiListRunning :: evs /\
    filter is_ApiListRunning evs = [] /\
    filter is_ApiShutdownSession evs = [].
Proof.
  destruct (listRunning (server w)) as [[models|err] srv] eqn:Hlist.
  - destruct (isDisposed (manager w)) eqn:Hd.
    + rewrite (requestRunning_disposed w Hlist Hd). exists []. auto.
    + destruct (models_unchanged (_models (manager w)) models) as [[|]|e] eqn:Hsame.
      * rewrite (requestRunning_short_circuit w Hlist Hd Hsame). exists []. auto.
      * destruct (requestRunning_replace w Hlist Hd Hsame) as (g & Hrun & _).
        rewrite Hrun. simpl. eexists. split; [reflexivity|].
        rewrite !filter_app, !filter_reconcile_calls by reflexivity. auto.
      * rewrite (requestRunning_test_throws w Hlist Hd Hsame). exists []. auto.
  - rewrite (requestRunning_failure w Hlist). simpl. eexists. split; [reflexivity|].
    destruct (is_connection_failure err); auto.
Qed.

Lemma refreshRunning_log (w : World) :
  poll_isDisposed (_pollModels (manager w)) = false ->
  exists evs,
    trace (snd (refreshRunning w)) = trace w ++ ApiListRunning :: evs /\
    filter is_ApiListRunning evs = [] /\
    filter is_ApiShutdownSession evs = [].
Proof.
  intros Hp. rewrite (refreshRunning_live w Hp).
  exact (requestRunning_log (poll_settled w)).
Qed.

(** A refresh whose fetch passes the short-circuit test. *)
Lemma refreshRunning_short_circuit (w : World) (models : list IModel) (srv : Server) :
  poll_isDisposed (_pollModels (manager w)) = false ->
  isDisposed (manager w) = false ->
  listRunning (server w) = (Ok models, srv) ->
  models_unchanged (_models (manager w)) models = Ok true ->
  refreshRunning w =
    (Ok tt, {| server := srv; manager := manager (poll_settled w);
               trace := trace w ++ [ApiListRunning] |}).
Proof.
  intros Hp Hd Hlist Hsame. rewrite (refreshRunning_live w Hp).
  exact (requestRunning_short_circuit (poll_settled w) Hlist Hd Hsame).
Qed.

(** After a successful refresh of a list without repeated ids, the map
    passes the short-circuit test against that list. *)
Lemma refreshRunning_settles (w w1 : World) (models : list IModel) :
  poll_isDisposed (_pollModels (manager w)) = false ->
  isDisposed (manager w) = false ->
  fst (listRunning (server w)) = Ok models ->
  NoDup (map id models) ->
  refreshRunning w = (Ok tt, w1) ->
  poll_isDisposed (_pollModels (manager w1)) = false /\
  isDisposed (manager w1) = false /\
  models_unchanged (_models (manager w1)) models = Ok true.
Proof.
  intros Hp Hd Hlist Hnd Hrun.
  rewrite (refreshRunning_live w Hp) in Hrun.
  destruct (listRunning (server w)) as [r srv] eqn:Hl. simpl in Hlist. subst r.
  destruct (models_unchanged (_models (manager w)) models) as [[|]|e] eqn:Hsame.
  - rewrite (requestRunning_short_circuit (poll_settled w) Hl Hd Hsame) in Hrun.
    injection Hrun as <-. simpl. auto.
  - destruct (requestRunning_replace (poll_settled w) Hl Hd Hsame)
      as (g & Hrun' & Hm & Hd' & _ & Hp' & _).
    rewrite Hrun' in Hrun. injection Hrun as <-. simpl in *.
    repeat split; auto.
    rewrite Hm. apply models_unchanged_iff.
    rewrite JsMapFacts.of_entries_NoDup by (rewrite map_map; exact Hnd).
    split.
    + unfold JsMap.size. apply length_map.
    + intros x Hx. apply JsMapFacts.get_entries_NoDup; assumption.
  - rewrite (requestRunning_test_throws (poll_settled w) Hl Hd Hsame) in Hrun.
    discriminate Hrun.
Qed.

(** Against the map made from a list that repeats an id, the
    short-circuit test returns false: the map is smaller than the list. *)
Lemma repeated_id_never_settles (x y : IModel) (l1 l2 l3 : list IModel) :
  id x = id y ->
  let models := l1 ++ x :: l2 ++ y :: l3 in
  models_unchanged (JsMap.of_entries (map (fun m => (id m, m)) models)) models
  = Ok false.
Proof.
  intros Hid models. unfold models_unchanged.
  match goal with |- (if Nat.eqb ?a ?b then _ else _) = _ =>
    assert (Hne : a <> b); [|apply Nat.eqb_neq in Hne; rewrite Hne; reflexivity] end.
  pose proof (JsMapFacts.size_of_entries_dup (id x) x y
                (map (fun m => (id m, m)) l1) (map (fun m => (id m, m)) l2)
                (map (fun m => (id m, m)) l3)) as Hlt.
  subst models. rewrite map_app. simpl. rewrite map_app. simpl.
  rewrite <- Hid.
  rewrite !length_app in Hlt. simpl in Hlt. rewrite !length_app in Hlt. simpl in Hlt.
  rewrite !length_map in Hlt.
  rewrite !length_app. simpl. rewrite !length_app. simpl. lia.
Qed.

(** C2: a successful fetch on a live manager whose list is as long as the
    map is large and has every model deep-equal to the map's entry for its
    id leaves the manager as it was and logs the fetch alone: no connection
    is called and nothing is emitted.  When the server-side list has no
    repeated id, a second refresh against the same list keeps the map,
    calls no connection and emits nothing. *)
Theorem requestRunning_unchanged_fetch :
  (forall (w : World) (models : list IModel) (srv : Server),
      listRunning (server w) = (Ok models, srv) ->
      isDisposed (manager w) = false ->
      JsMap.size (_models (manager w)) = List.length models ->
      (forall x, In x models ->
                 deepEqual (JsMap.get (id x) (_models (manager w))) x = Ok true) ->
      fst (requestRunning w) = Ok tt /\
      manager (snd (requestRunning w)) = manager w /\
      new_events w (snd (requestRunning w)) = [ApiListRunning]) /\
  (forall (w : World) (models : list IModel),
      fst (listRunning (server w)) = Ok models ->
      NoDup (map id models) ->
      second_refresh_silent w).
Proof.
  split.
  - intros w models srv Hlist Hd Hsize Heq.
    assert (Hsame : models_unchanged (_models (manager w)) models = Ok true).
    { apply models_unchanged_iff. split; [exact Hsize|].
      intros x Hx. apply deepEqual_true, Heq, Hx. }
    rewrite (requestRunning_short_circuit w Hlist Hd Hsame). simpl.
    repeat split. apply new_events_app. reflexivity.
  - intros w models Hlist Hnd models' w1 Hlist' Hrun Hlist1.
    assert (models' = models) by congruence. subst models'.
    destruct (poll_isDisposed (_pollModels (manager w))) eqn:Hp.
    { (* a disposed poll runs nothing, twice *)
      rewrite (refreshRunning_poll_disposed w Hp) in Hrun. injection Hrun as <-.
      rewrite (refreshRunning_poll_disposed w Hp). simpl. split; [reflexivity|].
      rewrite (new_events_app w w []) by (rewrite app_nil_r; reflexivity).
      reflexivity. }
    destruct (listRunning (server w1)) as [r srv2] eqn:Hl1. simpl in Hlist1. subst r.
    destruct (isDisposed (manager w)) eqn:Hd.
    { (* a disposed manager only fetches, twice *)
      destruct (listRunning (server w)) as [r srv] eqn:Hl. simpl in Hlist. subst r.
      rewrite (refreshRunning_live w Hp),
              (requestRunning_disposed (poll_settled w) Hl Hd) in Hrun.
      injection Hrun as <-.
      rewrite refreshRunning_live by reflexivity.
      rewrite (requestRunning_disposed (poll_settled _) Hl1 Hd). simpl.
      split; [reflexivity|].
      erewrite new_events_app by reflexivity. reflexivity. }
    destruct (refreshRunning_settles w Hp Hd Hlist Hnd Hrun) as (Hp1 & Hd1 & Hsame).
    rewrite (refreshRunning_short_circuit w1 Hp1 Hd1 Hl1 Hsame). simpl.
    split; [reflexivity|].
    rewrite (new_events_app w1 _ [ApiListRunning]) by reflexivity. reflexivity.
Qed.

End Refresh.

(** A list with a repeated id keeps every refresh emitting: after the
    first refresh the map has fewer entries than the list has models. *)
Lemma second_refresh_silent_counterexample :
  ~ second_refresh_silent (test_world (serving [model_A; model_A2]) new_manager).
Proof.
  intros H.
  destruct (H [model_A; model_A2]
              (snd (refreshRunning (test_world (serving [model_A; model_A2]) new_manager)))
              eq_refl eq_refl eq_refl) as [_ Hquiet].
  vm_compute in Hquiet. discriminate Hquiet.
Qed.

Lemma requestRunning_unchanged_fetch_witness :
  (let w := test_world (serving [model_A; model_B]) manager_AB in
   fst (requestRunning w) = Ok tt /\
   manager (snd (requestRunning w)) = manager_AB /\
   new_events w (snd (requestRunning w)) = [ApiListRunning]) /\
  second_refresh_silent (test_world (serving [model_A'; model_B2]) manager_AB).
Proof.
  split.
  - apply (proj1 (@requestRunning_unchanged_fetch test_collaborators)
             (test_world (serving [model_A; model_B]) manager_AB)
             [model_A; model_B] (serving [model_A; model_B])).
    + reflexivity.
    + reflexivity.
    + reflexivity.
    + intros x [<-|[<-|[]]]; reflexivity.
  - apply (proj2 (@requestRunning_unchanged_fetch test_collaborators)
             (test_world (serving [model_A'; model_B2]) manager_AB)
             [model_A'; model_B2]).
    + reflexivity.
    + repeat constructor; simpl; intuition discriminate.
Defined.

(** ** The registry stays a set *)

Section Registry.

Context `{C : Collaborators}.

Lemma NoDup_handles_filter (f : SessionConn -> bool) (l : list SessionConn) :
  NoDup (map sc_handle l) -> NoDup (map sc_handle (filter f l)).
Proof.
  induction l as [|c l IH]; simpl; intros Hnd; [constructor|].
  inversion Hnd as [|? ? Hc Hnd']; subst.
  destruct (f c); simpl; [constructor|]; auto.
  intros Hin. apply Hc. apply in_map_iff in Hin. destruct Hin as (x & Hx & Hin).
  apply filter_In in Hin. rewrite <- Hx. apply in_map. tauto.
Qed.

Lemma registry_wf_reconciled (current : JsMap.t) (l r : list SessionConn) (n : nat) :
  NoDup (map sc_handle r) ->
  (forall c, In c r -> sc_handle c < n) ->
  let r' := fold_left
              (fun r sc => if JsMap.has (sc_id sc) current then r
                           else registry_delete sc r) l r in
  NoDup (map sc_handle r') /\ forall c, In c r' -> sc_handle c < n.
Proof.
  revert r; induction l as [|sc l IH]; intros r Hnd Hlt; simpl; [auto|].
  destruct (JsMap.has (sc_id sc) current); [apply IH; assumption|].
  apply IH.
  - apply NoDup_handles_filter, Hnd.
  - intros c Hc. apply Hlt. unfold registry_delete in Hc. apply filter_In in Hc. tauto.
Qed.

Lemma registry_wf_new_manager : registry_wf new_manager.
Proof. split; [constructor | intros c []]. Qed.

Lemma registry_wf_requestRunning (w : World) :
  registry_wf (manager w) -> registry_wf (manager (snd (requestRunning w))).
Proof.
  intros [Hnd Hlt].
  destruct (listRunning (server w)) as [[models|err] srv] eqn:Hlist.
  - destruct (isDisposed (manager w)) eqn:Hd.
    + rewrite (requestRunning_disposed w Hlist Hd). split; assumption.
    + destruct (models_unchanged (_models (manager w)) models) as [[|]|e] eqn:Hsame.
      * rewrite (requestRunning_short_circuit w Hlist Hd Hsame). split; assumption.
      * destruct (requestRunning_replace w Hlist Hd Hsame)
          as (g & Hrun & _ & _ & Hn & _ & Hr).
        rewrite Hrun. simpl. unfold registry_wf. rewrite Hr, Hn.
        apply registry_wf_reconciled; assumption.
      * rewrite (requestRunning_test_throws w Hlist Hd Hsame). split; assumption.
  - rewrite (requestRunning_failure w Hlist). split; assumption.
Qed.

Lemma registry_wf_refreshRunning (w : World) :
  registry_wf (manager w) -> registry_wf (manager (snd (refreshRunning w))).
Proof.
  intros Hwf. destruct (poll_isDisposed (_pollModels (manager w))) eqn:Hp.
  - rewrite (refreshRunning_poll_disposed w Hp). exact Hwf.
  - rewrite (refreshRunning_live w Hp). apply registry_wf_requestRunning. exact Hwf.
Qed.

(** [connectTo] returns a connection bound to the model's id and adds it to
    the registry. *)
Lemma connectTo_registers (model : IModel) (w : World) :
  registry_wf (manager w) ->
  let sc := {| sc_handle := next_handle (manager w); sc_id := id model |} in
  fst (connectTo model w) = Ok sc /\
  _sessionConnections (manager (snd (connectTo model w)))
  = _sessionConnections (manager w) ++ [sc] /\
  _models (manager (snd (connectTo model w))) = _models (manager w) /\
  trace (snd (connectTo model w)) = trace w /\
  registry_wf (manager (snd (connectTo model w))).
Proof.
  intros [Hnd Hlt] sc.
  assert (Hfresh : existsb (fun c => Nat.eqb (sc_handle c) (next_handle (manager w)))
                     (_sessionConnections (manager w)) = false).
  { destruct (existsb _ _) eqn:E; [|reflexivity].
    apply existsb_exists in E. destruct E as (c & Hc & E).
    apply Nat.eqb_eq in E. specialize (Hlt c Hc). lia. }
  assert (Hwf : registry_wf
                  (set_sessionConnections (_sessionConnections (manager w) ++ [sc])
                     (set_next_handle (S (next_handle (manager w))) (manager w)))).
  { split; simpl.
    - rewrite map_app. simpl. apply NoDup_app; [exact Hnd | repeat constructor; simpl; tauto |].
      intros h Hin [<-|[]]. apply in_map_iff in Hin. destruct Hin as (c & E & Hc).
      specialize (Hlt c Hc). lia.
    - intros c Hc. apply in_app_iff in Hc. destruct Hc as [Hc|[<-|[]]]; simpl.
      + specialize (Hlt c Hc). lia.
      + lia. }
  unfold connectTo, _onStarted, void_refreshRunning, poll_refresh,
    bind, gets, modify, ret, registry_add.
  simpl. rewrite Hfresh.
  destruct (JsMap.has (id model) (_models (manager w))); simpl.
  - repeat split; apply Hwf.
  - destruct (poll_isDisposed (_pollModels (manager w))); simpl;
      repeat split; apply Hwf.
Qed.

End Registry.

(** ** [shutdown], [shutdownAll], [stopIfNeeded] *)

Section Shutdown.

Context `{C : Collaborators}.

Lemma shutdown_stop_succeeds (k : string) (w : World) (srv : Server) :
  shutdownSession k (server w) = (Ok tt, srv) ->
  shutdown k w =
    refreshRunning {| server := srv; manager := manager w;
                      trace := trace w ++ [ApiShutdownSession k] |}.
Proof.
  intros Hstop. unfold shutdown, api_shutdownSession, bind. rewrite Hstop.
  reflexivity.
Qed.

Lemma shutdown_stop_fails (k : string) (w : World) (e : Error) (srv : Server) :
  shutdownSession k (server w) = (Err e, srv) ->
  shutdown k w =
    (Err e, {| server := srv; manager := manager w;
               trace := trace w ++ [ApiShutdownSession k] |}).
Proof.
  intros Hstop. unfold shutdown, api_shutdownSession, bind. rewrite Hstop.
  reflexivity.
Qed.

(** The stop calls of [shutdownAll]: all of them are made, whatever each
    one's outcome. *)
Lemma promise_all_shutdownSession (ks : list string) :
  forall w : World,
    promise_all (map api_shutdownSession ks) w =
      (match first_error (fst (stop_each ks (server w))) with
       | Some e => Err e
       | None => Ok tt
       end,
       {| server := snd (stop_each ks (server w)); manager := manager w;
          trace := trace w ++ map ApiShutdownSession ks |}).
Proof.
  induction ks as [|k ks IH]; intros w; simpl.
  - unfold ret. rewrite app_nil_r. destruct w; reflexivity.
  - unfold api_shutdownSession at 1.
    destruct (shutdownSession k (server w)) as [r srv1] eqn:Hstop.
    specialize (IH {| server := srv1; manager := manager w;
                      trace := trace w ++ [ApiShutdownSession k] |}).
    simpl in IH.
    destruct (stop_each ks srv1) as [rs srv2] eqn:Hrest. simpl in *.
    rewrite <- app_assoc in IH. simpl in IH.
    destruct r as [[]|e]; rewrite IH; simpl; reflexivity.
Qed.

(** C5, as the code has it: once the first refresh has succeeded, a stop
    call is made for every id of the map, in the map's order; when one of
    them fails, [shutdownAll] fails with the error of the first that does,
    and nothing follows the stop calls: the manager, and so what
    [running()] lists, is as the first refresh left it. *)
Theorem shutdownAll_stop_failure (w w1 : World) (e : Error)
  (Hrefresh : refreshRunning w = (Ok tt, w1))
  (Hfail : first_error
             (fst (stop_each (JsMap.keys (_models (manager w1))) (server w1)))
           = Some e) :
  let ks := JsMap.keys (_models (manager w1)) in
  let w' := snd (shutdownAll w) in
  fst (shutdownAll w) = Err e /\
  new_events w1 w' = map ApiShutdownSession ks /\
  server w' = snd (stop_each ks (server w1)) /\
  manager w' = manager w1 /\
  fst (running w') = fst (running w1).
Proof.
  intros ks w'. subst w'.
  assert (Hrun : shutdownAll w =
            (Err e, {| server := snd (stop_each ks (server w1)); manager := manager w1;
                       trace := trace w1 ++ map ApiShutdownSession ks |})).
  { unfold shutdownAll, bind. rewrite Hrefresh. unfold gets.
    rewrite promise_all_shutdownSession, Hfail. reflexivity. }
  rewrite Hrun. simpl. repeat split. apply new_events_app. reflexivity.
Qed.

(** When every stop call succeeds, the second refresh is what settles
    [shutdownAll]. *)
Lemma shutdownAll_stops_succeed (w w1 : World)
  (Hrefresh : refreshRunning w = (Ok tt, w1))
  (Hok : first_error
           (fst (stop_each (JsMap.keys (_models (manager w1))) (server w1)))
         = None) :
  let ks := JsMap.keys (_models (manager w1)) in
  shutdownAll w =
    refreshRunning {| server := snd (stop_each ks (server w1)); manager := manager w1;
                      trace := trace w1 ++ map ApiShutdownSession ks |}.
Proof.
  intros ks. subst ks. unfold shutdownAll, bind. rewrite Hrefresh.
  unfold gets.
  rewrite promise_all_shutdownSession, Hok.
  reflexivity.
Qed.

(** C7: [stopIfNeeded] always resolves.  When the listing fails, the fetch
    is all that happens.  When the listing has two or more sessions at the
    path (or none), the fetch is all that happens: no stop call is made.
    When it has exactly one, [shutdown] is called with that session's id:
    the stop call follows the fetch, and when the stop call fails nothing
    follows it. *)
Theorem stopIfNeeded_best_effort (p : string) (w : World) :
  fst (stopIfNeeded p w) = Ok tt /\
  (forall e srv,
      listRunning (server w) = (Err e, srv) ->
      snd (stopIfNeeded p w) =
        {| server := srv; manager := manager w; trace := trace w ++ [ApiListRunning] |}) /\
  (forall sessions srv,
      listRunning (server w) = (Ok sessions, srv) ->
      let matches := filter (fun value => String.eqb (path value) p) sessions in
      let listed := {| server := srv; manager := manager w;
                       trace := trace w ++ [ApiListRunning] |} in
      (List.length matches <> 1 -> snd (stopIfNeeded p w) = listed) /\
      (forall m,
          matches = [m] ->
          snd (stopIfNeeded p w) = snd (shutdown (id m) listed) /\
          (forall srv',
              shutdownSession (id m) srv = (Ok tt, srv') ->
              snd (stopIfNeeded p w) =
                snd (refreshRunning
                       {| server := srv'; manager := manager w;
                          trace := trace w ++ [ApiListRunning; ApiShutdownSession (id m)] |})) /\
          (forall e srv',
              shutdownSession (id m) srv = (Err e, srv') ->
              snd (stopIfNeeded p w) =
                {| server := srv'; manager := manager w;
                   trace := trace w ++ [ApiListRunning; ApiShutdownSession (id m)] |}))).
Proof.
  unfold stopIfNeeded, try_catch, bind, api_listRunning, ret.
  destruct (listRunning (server w)) as [[sessions|e] srv] eqn:Hlist.
  - set (matches := filter (fun value => String.eqb (path value) p) sessions).
    set (listed := {| server := srv; manager := manager w;
                      trace := trace w ++ [ApiListRunning] |}).
    assert (Hok : fst (match
               (if Nat.eqb (List.length matches) 1
                then match matches with
                     | [] => fun w0 : World => (Ok tt, w0)
                     | m :: _ => shutdown (id m)
                     end
                else fun w0 : World => (Ok tt, w0)) listed
             with
             | (Ok a, w') => (Ok a, w')
             | (Err _, w') => (Ok tt, w')
             end) = Ok tt).
    { destruct (_ listed) as [[[]|e] w']; reflexivity. }
    split; [exact Hok|]. split; [intros e srv' H; discriminate H|].
    intros sessions' srv' H. injection H as <- <-. simpl. fold matches listed.
    split.
    + intros Hlen. destruct matches as [|m1 [|m2 rest]]; simpl in *;
        try reflexivity. contradiction Hlen. reflexivity.
    + intros m Hm. rewrite Hm. simpl.
      assert (Hsnd : snd (match shutdown (id m) listed with
                          | (Ok a, w') => (Ok a, w')
                          | (Err _, w') => (Ok tt, w')
                          end) = snd (shutdown (id m) listed)).
      { destruct (shutdown (id m) listed) as [[[]|e] w']; reflexivity. }
      rewrite Hsnd. split; [reflexivity|]. split.
      * intros srv2 Hstop.
        rewrite (shutdown_stop_succeeds (id m) listed (srv:=srv2)) by exact Hstop.
        simpl. rewrite <- app_assoc. reflexivity.
      * intros e srv2 Hstop.
        rewrite (shutdown_stop_fails (id m) listed (e:=e) (srv:=srv2)) by exact Hstop.
        simpl. rewrite <- app_assoc. reflexivity.
  - simpl. split; [reflexivity|]. split.
    + intros e' srv' H. injection H as <- <-. reflexivity.
    + intros sessions srv' H. discriminate H.
Qed.

End Shutdown.


Lemma shutdownAll_clears_stopped_counterexample :
  ~ shutdownAll_clears_stopped
      (test_world (failing_stop [model_A; model_B] ["A"]) manager_AB).
Proof.
  intros H.
  destruct (H (snd (refreshRunning
                      (test_world (failing_stop [model_A; model_B] ["A"]) manager_AB)))
              eq_refl) as (_ & _ & Habsent).
  - exists "A", error_500. simpl. auto.
  - exists "B". simpl. auto.
  - apply (Habsent "B" [model_A]).
    + simpl. auto.
    + reflexivity.
    + simpl. intros [E|[]]. discriminate E.
    + simpl. auto.
Qed.

Lemma shutdownAll_stop_failure_witness :
  let w := test_world (failing_stop [model_A; model_B] ["A"]) manager_AB in
  fst (shutdownAll w) = Err error_500 /\
  new_events (snd (refreshRunning w)) (snd (shutdownAll w)) =
    [ApiShutdownSession "A"; ApiShutdownSession "B"] /\
  server (snd (shutdownAll w)) = failing_stop [model_A] ["A"] /\
  manager (snd (shutdownAll w)) = manager_AB /\
  fst (running (snd (shutdownAll w))) = Ok [model_A; model_B].
Proof.
  intros w.
  exact (@shutdownAll_stop_failure test_collaborators w (snd (refreshRunning w))
           error_500 eq_refl eq_refl).
Defined.

Lemma stopIfNeeded_best_effort_witness :
  (let w := test_world (failing_stop [model_A; model_B] ["A"]) manager_AB in
   snd (stopIfNeeded "/a.ipynb" w) =
     {| server := failing_stop [model_A; model_B] ["A"]; manager := manager_AB;
        trace := [ApiListRunning; ApiShutdownSession "A"] |}) /\
  (let w := test_world (serving [model_B; model_B2]) manager_AB in
   snd (stopIfNeeded "/b.ipynb" w) =
     {| server := serving [model_B; model_B2]; manager := manager_AB;
        trace := [ApiListRunning] |}).
Proof.
  split; intros w.
  - destruct (@stopIfNeeded_best_effort test_collaborators "/a.ipynb" w) as (_ & _ & H).
    destruct (H [model_A; model_B] (failing_stop [model_A; model_B] ["A"]) eq_refl)
      as (_ & Hone).
    destruct (Hone model_A eq_refl) as (_ & _ & Hfail).
    exact (Hfail error_500 (failing_stop [model_A; model_B] ["A"]) eq_refl).
  - destruct (@stopIfNeeded_best_effort test_collaborators "/b.ipynb" w) as (_ & _ & H).
    destruct (H [model_B; model_B2] (serving [model_B; model_B2]) eq_refl) as (Htwo & _).
    apply Htwo. simpl. lia.
Defined.

(** ** [findById], [findByPath] *)

Section Find.

Context `{C : Collaborators}.

Lemma after_refresh_one_fetch (look : JsMap.t -> option IModel) (w : World) :
  poll_isDisposed (_pollModels (manager w)) = false ->
  filter is_ApiListRunning (new_events w (snd (after_refresh look w))) = [ApiListRunning].
Proof.
  intros Hp. destruct (refreshRunning_log w Hp) as (evs & Htrace & Hnone & _).
  unfold after_refresh.
  destruct (refreshRunning w) as [[[]|e] w'] eqn:Hrun; simpl in *;
    rewrite (new_events_app w w' _ Htrace); simpl; rewrite Hnone; reflexivity.
Qed.

(** C8: [findById] and [findByPath] return the model the map holds (for
    [findByPath], the first one at the path in the map's order) and leave
    the world as it was, so that no refresh is requested.  When the map has
    no match, they run [refreshRunning] once (one fetch is logged) and,
    when it succeeds, look the refreshed map up the same way; the result is
    absent when that lookup finds nothing. *)
Theorem find_cached_or_refreshed (w : World) :
  (forall k m,
      JsMap.get k (_models (manager w)) = Some m ->
      findById k w = (Ok (Some m), w)) /\
  (forall k,
      JsMap.get k (_models (manager w)) = None ->
      findById k w = after_refresh (JsMap.get k) w) /\
  (forall p m,
      find (fun x => String.eqb (path x) p) (JsMap.values (_models (manager w))) = Some m ->
      findByPath p w = (Ok (Some m), w)) /\
  (forall p,
      find (fun x => String.eqb (path x) p) (JsMap.values (_models (manager w))) = None ->
      findByPath p w =
        after_refresh
          (fun refreshed => find (fun x => String.eqb (path x) p) (JsMap.values refreshed)) w) /\
  (forall look,
      poll_isDisposed (_pollModels (manager w)) = false ->
      filter is_ApiListRunning (new_events w (snd (after_refresh look w)))
      = [ApiListRunning]) /\
  (forall look w',
      refreshRunning w = (Ok tt, w') ->
      after_refresh look w = (Ok (look (_models (manager w'))), w')).
Proof.
  repeat apply conj.
  - intros k m Hget. unfold findById, bind, gets, ret, JsMap.has. rewrite Hget.
    reflexivity.
  - intros k Hget. unfold findById, after_refresh, bind, gets, ret, JsMap.has.
    rewrite Hget. destruct (refreshRunning w) as [[[]|e] w']; reflexivity.
  - intros p m Hfind. unfold findByPath, bind, gets, ret. rewrite Hfind. reflexivity.
  - intros p Hfind. unfold findByPath, after_refresh, bind, gets, ret. rewrite Hfind.
    destruct (refreshRunning w) as [[[]|e] w']; reflexivity.
  - intros look Hp. exact (after_refresh_one_fetch look w Hp).
  - intros look w' Hrun. unfold after_refresh. rewrite Hrun. reflexivity.
Qed.

End Find.

(** ** [dispose] *)

Section Dispose.

Context `{C : Collaborators}.

Lemma sc_dispose_step (sc : SessionConn) (w : World) :
  exists g,
    sc_dispose sc w =
      (Ok tt, {| server := server w; manager := g; trace := trace w ++ [ScDispose sc] |}) /\
    _models g = _models (manager w) /\
    isDisposed g = isDisposed (manager w) /\
    next_handle g = next_handle (manager w) /\
    _sessionConnections g = registry_delete sc (_sessionConnections (manager w)).
Proof.
  unfold sc_dispose, _onDisposed, void_refreshRunning, poll_refresh, bind, emit, modify.
  simpl. destruct (poll_isDisposed (_pollModels (manager w)));
    eexists; (split; [reflexivity | simpl; auto]).
Qed.

Lemma forEach_sc_dispose (l : list SessionConn) :
  forall w : World,
  exists g,
    forEach l sc_dispose w =
      (Ok tt, {| server := server w; manager := g; trace := trace w ++ map ScDispose l |}) /\
    _models g = _models (manager w) /\
    isDisposed g = isDisposed (manager w) /\
    next_handle g = next_handle (manager w) /\
    _sessionConnections g =
      fold_left (fun r sc => registry_delete sc r) l (_sessionConnections (manager w)).
Proof.
  induction l as [|sc l IH]; intros w.
  - exists (manager w). simpl. unfold ret. rewrite app_nil_r. destruct w; simpl; auto.
  - destruct (sc_dispose_step sc w) as (g1 & Hstep & Hm & Hd & Hn & Hr).
    destruct (IH {| server := server w; manager := g1;
                    trace := trace w ++ [ScDispose sc] |})
      as (g2 & Hrest & Hm2 & Hd2 & Hn2 & Hr2).
    simpl in *. exists g2. unfold bind. rewrite Hstep, Hrest, <- app_assoc. simpl.
    rewrite Hr2, Hr. repeat split; congruence.
Qed.

(** Each connection takes itself out of the registry. *)
Lemma registry_emptied (l r : list SessionConn) :
  (forall c, In c r -> In (sc_handle c) (map sc_handle l)) ->
  fold_left (fun r sc => registry_delete sc r) l r = [].
Proof.
  revert r; induction l as [|sc l IH]; intros r Hsub; simpl.
  - destruct r as [|c r]; [reflexivity|]. destruct (Hsub c (or_introl eq_refl)).
  - apply IH. intros c Hc. unfold registry_delete in Hc.
    apply filter_In in Hc. destruct Hc as [Hc Hne].
    destruct (Hsub c Hc) as [E|Hin]; [|exact Hin].
    rewrite E, Nat.eqb_refl in Hne. discriminate Hne.
Qed.

Lemma dispose_outcome (w : World) :
  dispose w =
    (Ok tt,
     {| server := server w;
        manager :=
          {| _models := JsMap.empty;
             _sessionConnections := [];
             _pollModels := {| poll_isDisposed := true; poll_pending := false |};
             isDisposed := true;
             next_handle := next_handle (manager w) |};
        trace := trace w ++ map ScDispose (_sessionConnections (manager w)) |}).
Proof.
  destruct (forEach_sc_dispose (_sessionConnections (manager w))
              {| server := server w; manager := set_models JsMap.empty (manager w);
                 trace := trace w |})
    as (g & Hloop & Hm & Hd & Hn & Hr).
  simpl in *.
  unfold dispose, poll_dispose, super_dispose, bind, modify, gets. simpl.
  rewrite Hloop. simpl. unfold set_isDisposed, set_pollModels. simpl.
  rewrite Hm, Hn, Hr, registry_emptied; [reflexivity|].
  intros c Hc. apply in_map. exact Hc.
Qed.

(** C10: [dispose] empties the map, calls [dispose] on every registered
    connection, in registry order (each leaves the registry), disposes the
    poll and marks the manager disposed; the calls on the connections are
    all it logs, so that no running-changed notification is emitted while
    [running()] goes from the values of the map to none.  A fetch that
    settles on the disposed manager emits none either. *)
Theorem dispose_is_silent (w : World) :
  let w' := snd (dispose w) in
  fst (dispose w) = Ok tt /\
  _models (manager w') = JsMap.empty /\
  fst (running w') = Ok [] /\
  new_events w w' = map ScDispose (_sessionConnections (manager w)) /\
  _sessionConnections (manager w') = [] /\
  _pollModels (manager w') = {| poll_isDisposed := true; poll_pending := false |} /\
  isDisposed (manager w') = true /\
  filter is_RunningChanged (new_events w w') = [] /\
  refreshRunning w' = (Ok tt, w') /\
  filter is_RunningChanged (new_events w' (snd (requestRunning w'))) = [].
Proof.
  intros w'. subst w'. rewrite (dispose_outcome w). simpl.
  set (w' := {| server := server w; manager := _; trace := _ |}).
  assert (Hev : new_events w w' = map ScDispose (_sessionConnections (manager w)))
    by (apply new_events_app; reflexivity).
  repeat apply conj; try reflexivity.
  - exact Hev.
  - rewrite Hev. clear. induction (_sessionConnections (manager w)); simpl; auto.
  - destruct (listRunning (server w')) as [[models|err] srv] eqn:Hlist.
    + rewrite (requestRunning_disposed w' Hlist eq_refl). simpl.
      rewrite (new_events_app w' _ [ApiListRunning]) by reflexivity. reflexivity.
    + rewrite (requestRunning_failure w' Hlist). simpl.
      erewrite new_events_app by reflexivity.
      destruct (is_connection_failure err); reflexivity.
Qed.

End Dispose.

Lemma find_cached_or_refreshed_witness :
  let w := test_world (serving [model_A; model_B; model_B2]) manager_AB in
  findById "A" w = (Ok (Some model_A), w) /\
  fst (findById "B2" w) = Ok (Some model_B2) /\
  findByPath "/b.ipynb" w = (Ok (Some model_B), w) /\
  fst (findByPath "/c.ipynb" w) = Ok None /\
  filter is_ApiListRunning
    (new_events w (snd (after_refresh (JsMap.get "B2") w))) = [ApiListRunning].
Proof.
  intros w.
  destruct (@find_cached_or_refreshed test_collaborators w)
    as (Hhit & Hmiss & Hphit & Hpmiss & Hone & _).
  split; [exact (Hhit "A" model_A eq_refl)|].
  split; [rewrite (Hmiss "B2" eq_refl); reflexivity|].
  split; [exact (Hphit "/b.ipynb" model_B eq_refl)|].
  split; [rewrite (Hpmiss "/c.ipynb" eq_refl); reflexivity|].
  exact (Hone (JsMap.get "B2") eq_refl).
Defined.

Lemma dispose_is_silent_witness :
  let w := test_world (serving [model_A; model_B]) manager_AB in
  fst (running w) = Ok [model_A; model_B] /\
  fst (running (snd (dispose w))) = Ok [] /\
  new_events w (snd (dispose w)) = [ScDispose conn_A; ScDispose conn_B] /\
  filter is_RunningChanged (new_events w (snd (dispose w))) = [].
Proof.
  intros w.
  destruct (@dispose_is_silent test_collaborators w)
    as (_ & _ & Hrun & Hev & _ & _ & _ & Hquiet & _).
  split; [reflexivity|]. split; [exact Hrun|]. split; [exact Hev | exact Hquiet].
Defined.

(** * Further properties *)

(** ** More on the map *)

Module JsMapMore.
Import JsMap.

Lemma get_None_keys (k : string) (m : t) : get k m = None <-> ~ In k (keys m).
Proof.
  induction m as [|[k' v] m IH]; simpl.
  - tauto.
  - destruct (String.eqb_spec k' k) as [->|Hne].
    + split; [discriminate | tauto].
    + rewrite IH. tauto.
Qed.

Lemma get_Some_In (k : string) (v : IModel) (m : t) :
  get k m = Some v -> In (k, v) m.
Proof.
  induction m as [|[k' v'] m IH]; simpl; [discriminate|].
  destruct (String.eqb_spec k' k) as [->|Hne].
  - intros H. injection H as ->. auto.
  - auto.
Qed.

Lemma In_get (k : string) (v : IModel) (m : t) :
  NoDup (keys m) -> In (k, v) m -> get k m = Some v.
Proof.
  induction m as [|[k' v'] m IH]; simpl; [tauto|].
  intros Hnd [H|H].
  - injection H as -> ->. rewrite String.eqb_refl. reflexivity.
  - inversion Hnd as [|? ? Hk Hnd']; subst.
    destruct (String.eqb_spec k' k) as [->|Hne]; [|auto].
    exfalso. apply Hk. change k with (fst (k, v)). apply in_map. exact H.
Qed.

Lemma In_values (v : IModel) (m : t) :
  In v (values m) <-> exists k, In (k, v) m.
Proof.
  unfold values. rewrite in_map_iff. split.
  - intros ([k v'] & E & H). simpl in E. subst. eauto.
  - intros (k & H). exists (k, v). auto.
Qed.

Lemma In_set (k k0 : string) (v v0 : IModel) (m : t) :
  In (k0, v0) (set k v m) -> (k0, v0) = (k, v) \/ In (k0, v0) m.
Proof.
  induction m as [|[k' v'] m IH]; simpl.
  - intros [H|[]]. auto.
  - destruct (String.eqb_spec k' k) as [->|Hne]; simpl.
    + intros [H|H]; auto.
    + intros [H|H]; auto. destruct (IH H); auto.
Qed.

Lemma In_fold_set (k0 : string) (v0 : IModel)
      (entries : list (string * IModel)) (m : t) :
  In (k0, v0) (fold_left (fun m e => set (fst e) (snd e) m) entries m) ->
  In (k0, v0) entries \/ In (k0, v0) m.
Proof.
  revert m; induction entries as [|[k v] l IH]; intros m; simpl; [auto|].
  intros H. destruct (IH _ H) as [Hin|Hin]; [auto|].
  destruct (In_set _ _ _ _ _ Hin) as [E|Hm]; auto.
Qed.

End JsMapMore.

(** ** Invariants of the manager *)

Section Invariants.

Context `{St : SessionStarter}.

#[local] Arguments models_unchanged : simpl never.
#[local] Arguments JsMap.of_entries : simpl never.

Lemma models_keyed_of_fetched (models : list IModel) :
  models_keyed (JsMap.of_entries (map (fun x => (id x, x)) models)).
Proof.
  split; [apply JsMapFacts.NoDup_keys_of_entries|].
  intros k v Hin. unfold JsMap.of_entries in Hin.
  apply JsMapMore.In_fold_set in Hin. destruct Hin as [Hin|[]].
  apply in_map_iff in Hin. destruct Hin as (x & E & _). injection E as <- <-.
  reflexivity.
Qed.

Lemma preserves_ret {A : Type} (P : Manager -> Prop) (a : A) : preserves P (ret a).
Proof. intros w Hw. exact Hw. Qed.

Lemma preserves_bind {A B : Type} (P : Manager -> Prop) (m : M A) (k : A -> M B) :
  preserves P m -> (forall a, preserves P (k a)) -> preserves P (bind m k).
Proof.
  intros Hm Hk w Hw. specialize (Hm w Hw). unfold bind.
  destruct (m w) as [[a|e] w']; simpl in *; [apply Hk; exact Hm | exact Hm].
Qed.

Lemma preserves_try_catch {A : Type} (P : Manager -> Prop) (m : M A)
      (handler : Error -> M A) :
  preserves P m -> (forall e, preserves P (handler e)) ->
  preserves P (try_catch m handler).
Proof.
  intros Hm Hh w Hw. specialize (Hm w Hw). unfold try_catch.
  destruct (m w) as [[a|e] w']; simpl in *; [exact Hm | apply Hh; exact Hm].
Qed.

Lemma preserves_modify (P : Manager -> Prop) (f : Manager -> Manager) :
  (forall g, P g -> P (f g)) -> preserves P (modify f).
Proof. intros Hf w Hw. simpl. apply Hf, Hw. Qed.

Lemma preserves_forEach {A : Type} (P : Manager -> Prop) (l : list A) (f : A -> M unit) :
  (forall a, preserves P (f a)) -> preserves P (forEach l f).
Proof.
  intros Hf. induction l as [|a l IH]; simpl.
  - apply preserves_ret.
  - apply preserves_bind; auto.
Qed.

Lemma preserves_api_listRunning (P : Manager -> Prop) : preserves P api_listRunning.
Proof.
  intros w Hw. unfold api_listRunning. destruct (listRunning (server w)). exact Hw.
Qed.

Lemma preserves_api_shutdownSession (P : Manager -> Prop) (k : string) :
  preserves P (api_shutdownSession k).
Proof.
  intros w Hw. unfold api_shutdownSession. destruct (shutdownSession k (server w)).
  exact Hw.
Qed.

Lemma preserves_api_startSession (P : Manager -> Prop) (options : Options) :
  preserves P (api_startSession options).
Proof.
  intros w Hw. unfold api_startSession. destruct (startSession options (server w)).
  exact Hw.
Qed.

Lemma preserves_promise_all (P : Manager -> Prop) (ps : list (M unit)) :
  (forall p, In p ps -> preserves P p) -> preserves P (promise_all ps).
Proof.
  induction ps as [|p ps IH]; intros Hps; simpl.
  - apply preserves_ret.
  - intros w Hw.
    assert (Hp : P (manager (snd (p w)))) by (apply Hps; simpl; auto).
    assert (IH' : preserves P (promise_all ps)) by (apply IH; intros; apply Hps; simpl; auto).
    destruct (p w) as [[[]|e] w']; simpl in *; apply IH'; exact Hp.
Qed.

Lemma manager_wf_poll_refresh : preserves manager_wf poll_refresh.
Proof.
  apply preserves_modify. intros g Hg.
  destruct (poll_isDisposed (_pollModels g)); exact Hg.
Qed.

Lemma registry_wf_delete (sc : SessionConn) (g : Manager) :
  registry_wf g ->
  registry_wf (set_sessionConnections (registry_delete sc (_sessionConnections g)) g).
Proof.
  intros [Hnd Hlt]. split; simpl.
  - apply NoDup_handles_filter, Hnd.
  - intros c Hc. apply Hlt. unfold registry_delete in Hc. apply filter_In in Hc. tauto.
Qed.

Lemma manager_wf_update_or_dispose (sc : SessionConn) :
  preserves manager_wf (update_or_dispose sc).
Proof.
  unfold update_or_dispose. apply preserves_bind; [intros w Hw; exact Hw|].
  intros current. destruct (JsMap.has (sc_id sc) current).
  - destruct (JsMap.get (sc_id sc) current) as [model|]; [|apply preserves_ret].
    unfold sc_update. apply preserves_bind; [intros w Hw; exact Hw|]. intros _.
    destruct (sc_emits_change sc model); [apply manager_wf_poll_refresh | apply preserves_ret].
  - unfold sc_dispose. apply preserves_bind; [intros w Hw; exact Hw|]. intros _.
    unfold _onDisposed. apply preserves_bind; [|intros _; apply manager_wf_poll_refresh].
    apply preserves_modify. intros g [Hk Hr]. split; [exact Hk|].
    apply registry_wf_delete, Hr.
Qed.

Lemma manager_wf_requestRunning : preserves manager_wf requestRunning.
Proof.
  unfold requestRunning. apply preserves_bind.
  - apply preserves_try_catch; [apply preserves_api_listRunning|].
    intros e. apply preserves_bind; [|intros _ w Hw; exact Hw].
    destruct (is_connection_failure e); intros w Hw; exact Hw.
  - intros models. apply preserves_bind; [intros w Hw; exact Hw|].
    intros [|]; [apply preserves_ret|].
    apply preserves_bind; [intros w Hw; exact Hw|]. intros current.
    apply preserves_bind; [intros w Hw; exact Hw|].
    intros [|]; [apply preserves_ret|].
    apply preserves_bind.
    + apply preserves_modify. intros g [_ Hr]. split; [|exact Hr].
      apply models_keyed_of_fetched.
    + intros _. apply preserves_bind; [intros w Hw; exact Hw|]. intros scs.
      apply preserves_bind; [|intros _ w Hw; exact Hw].
      apply preserves_forEach. apply manager_wf_update_or_dispose.
Qed.

Lemma manager_wf_refreshRunning : preserves manager_wf refreshRunning.
Proof.
  unfold refreshRunning. apply preserves_bind; [apply manager_wf_poll_refresh|].
  intros _. unfold poll_tick. apply preserves_bind; [intros w Hw; exact Hw|].
  intros p. destruct (poll_isDisposed p || negb (poll_pending p)); [apply preserves_ret|].
  apply preserves_bind; [|intros _; apply manager_wf_requestRunning].
  apply preserves_modify. intros g Hg. exact Hg.
Qed.

Lemma manager_wf_shutdown (k : string) : preserves manager_wf (shutdown k).
Proof.
  unfold shutdown. apply preserves_bind; [apply preserves_api_shutdownSession|].
  intros _. apply manager_wf_refreshRunning.
Qed.

Lemma manager_wf_connectTo (model : IModel) : preserves manager_wf (connectTo model).
Proof.
  intros w [Hk Hr].
  destruct (connectTo_registers model w Hr) as (_ & _ & Hm & _ & Hr').
  split; [rewrite Hm; exact Hk | exact Hr'].
Qed.

(** X1: a freshly constructed manager has a map with one entry per key,
    each model under its own id, and a registry of distinct connections;
    every operation of the manager keeps this, whether it resolves or
    rejects. *)
Theorem operations_keep_manager_wf :
  manager_wf new_manager /\
  preserves manager_wf requestRunning /\
  preserves manager_wf refreshRunning /\
  (forall model, preserves manager_wf (connectTo model)) /\
  (forall options, preserves manager_wf (startNew options)) /\
  (forall k, preserves manager_wf (shutdown k)) /\
  preserves manager_wf shutdownAll /\
  (forall p, preserves manager_wf (stopIfNeeded p)) /\
  (forall k, preserves manager_wf (findById k)) /\
  (forall p, preserves manager_wf (findByPath p)) /\
  preserves manager_wf dispose.
Proof.
  split.
  {
    split; [split; [constructor | intros k v []] | apply registry_wf_new_manager].
  }
  split.
  {
    apply manager_wf_requestRunning.
  }
  split.
  {
    apply manager_wf_refreshRunning.
  }
  split.
  {
    apply manager_wf_connectTo.
  }
  split.
  {
    intros options. unfold startNew.
    apply preserves_bind; [apply preserves_api_startSession|]. intros model.
    apply preserves_bind; [apply manager_wf_refreshRunning|]. intros _.
    apply manager_wf_connectTo.
  }
  split.
  {
    apply manager_wf_shutdown.
  }
  split.
  {
    unfold shutdownAll. apply preserves_bind; [apply manager_wf_refreshRunning|].
    intros _. apply preserves_bind; [intros w Hw; exact Hw|]. intros ks.
    apply preserves_bind; [|intros _; apply manager_wf_refreshRunning].
    apply preserves_promise_all. intros p Hp. apply in_map_iff in Hp.
    destruct Hp as (k & <- & _). apply preserves_api_shutdownSession.
  }
  split.
  {
    intros p. unfold stopIfNeeded.
    apply preserves_try_catch; [|intros _; apply preserves_ret].
    apply preserves_bind; [apply preserves_api_listRunning|]. intros sessions.
    destruct (Nat.eqb _ 1); [|apply preserves_ret].
    destruct (filter _ sessions) as [|m rest]; [apply preserves_ret|].
    apply manager_wf_shutdown.
  }
  split.
  {
    intros k. unfold findById. apply preserves_bind; [intros w Hw; exact Hw|].
    intros current. destruct (JsMap.has k current); [apply preserves_ret|].
    apply preserves_bind; [apply manager_wf_refreshRunning|].
    intros _ w Hw; exact Hw.
  }
  split.
  {
    intros p. unfold findByPath. apply preserves_bind; [intros w Hw; exact Hw|].
    intros current. destruct (find _ (JsMap.values current)); [apply preserves_ret|].
    apply preserves_bind; [apply manager_wf_refreshRunning|]. intros _.
    apply preserves_bind; [intros w Hw; exact Hw|]. intros refreshed.
    apply preserves_ret.
  }
  {
    intros w _. rewrite (dispose_outcome w). simpl.
    split; [split; [constructor | intros k v []] | split; [constructor | intros c []]].
  }
Qed.

End Invariants.

Lemma manager_wf_manager_AB : manager_wf manager_AB.
Proof.
  split; [split | split]; simpl.
  - repeat constructor; simpl; intuition discriminate.
  - intros k v [E|[E|[]]]; injection E as <- <-; reflexivity.
  - repeat constructor; simpl; intuition discriminate.
  - intros c [<-|[<-|[]]]; simpl; lia.
Qed.

Lemma operations_keep_manager_wf_witness :
  manager_wf
    (manager (snd (shutdownAll
                     (test_world (failing_stop [model_A; model_A2; model_B] ["A"])
                                 manager_AB)))) /\
  manager_wf
    (manager (snd (startNew model_C (test_world (serving [model_A]) manager_AB)))).
Proof.
  destruct (@operations_keep_manager_wf test_collaborators test_starter)
    as (_ & _ & _ & _ & Hstart & _ & Hall & _).
  split.
  - apply Hall. exact manager_wf_manager_AB.
  - apply (Hstart model_C). exact manager_wf_manager_AB.
Defined.

(** ** What a fetch does and does not do *)

Section FetchOutcome.

Context `{C : Collaborators}.

#[local] Arguments models_unchanged : simpl never.
#[local] Arguments is_connection_failure : simpl never.
#[local] Arguments JsMap.of_entries : simpl never.

(** The log and the map of one run of [requestRunning], by the outcome of
    the fetch. *)
Lemma requestRunning_events (w : World) :
  new_events w (snd (requestRunning w)) =
    match fst (listRunning (server w)) with
    | Err e => ApiListRunning ::
               (if is_connection_failure e then [ConnectionFailure e] else [])
    | Ok models =>
        if isDisposed (manager w) ||
           ends_run (models_unchanged (_models (manager w)) models)
        then [ApiListRunning]
        else ApiListRunning ::
             map (reconcile_call (JsMap.of_entries (map (fun x => (id x, x)) models)))
                 (_sessionConnections (manager w)) ++
             [RunningChanged models]
    end.
Proof.
  destruct (listRunning (server w)) as [[models|err] srv] eqn:Hlist; simpl.
  - destruct (isDisposed (manager w)) eqn:Hd; simpl.
    + rewrite (requestRunning_disposed w Hlist Hd). apply new_events_app. reflexivity.
    + destruct (models_unchanged (_models (manager w)) models) as [[|]|e] eqn:Hsame.
      * rewrite (requestRunning_short_circuit w Hlist Hd Hsame).
        apply new_events_app. reflexivity.
      * apply (requestRunning_replace_log w Hlist Hd Hsame).
      * rewrite (requestRunning_test_throws w Hlist Hd Hsame).
        apply new_events_app. reflexivity.
  - rewrite (requestRunning_failure w Hlist). apply new_events_app. reflexivity.
Qed.

Lemma requestRunning_models (w : World) :
  _models (manager (snd (requestRunning w))) =
    match fst (listRunning (server w)) with
    | Err _ => _models (manager w)
    | Ok models =>
        if isDisposed (manager w) ||
           ends_run (models_unchanged (_models (manager w)) models)
        then _models (manager w)
        else JsMap.of_entries (map (fun x => (id x, x)) models)
    end.
Proof.
  destruct (listRunning (server w)) as [[models|err] srv] eqn:Hlist; simpl.
  - destruct (isDisposed (manager w)) eqn:Hd; simpl.
    + rewrite (requestRunning_disposed w Hlist Hd). reflexivity.
    + destruct (models_unchanged (_models (manager w)) models) as [[|]|e] eqn:Hsame.
      * rewrite (requestRunning_short_circuit w Hlist Hd Hsame). reflexivity.
      * apply (requestRunning_replace_log w Hlist Hd Hsame).
      * rewrite (requestRunning_test_throws w Hlist Hd Hsame). reflexivity.
  - rewrite (requestRunning_failure w Hlist). reflexivity.
Qed.

Lemma reconcile_call_inv (current : JsMap.t) (l : list SessionConn) (e : Event) :
  In e (map (reconcile_call current) l) ->
  exists c, In c l /\
    ((exists m, e = ScUpdate c m /\ JsMap.get (sc_id c) current = Some m) \/
     (e = ScDispose c /\ JsMap.get (sc_id c) current = None)).
Proof.
  intros Hin. apply in_map_iff in Hin. destruct Hin as (c & E & Hc).
  exists c. split; [exact Hc|]. unfold reconcile_call in E.
  destruct (JsMap.get (sc_id c) current) as [m|]; subst e; eauto.
Qed.

(** X2: every [update] that [requestRunning] calls on a connection is for a
    registered connection and carries a model of the fetched list whose id
    is the connection's; every [dispose] it calls is for a registered
    connection whose id no model of the fetched list has. *)
Theorem connection_calls_follow_fetch (w : World) (sc : SessionConn) :
  (forall m,
      In (ScUpdate sc m) (new_events w (snd (requestRunning w))) ->
      In sc (_sessionConnections (manager w)) /\
      id m = sc_id sc /\
      exists models, fst (listRunning (server w)) = Ok models /\ In m models) /\
  (In (ScDispose sc) (new_events w (snd (requestRunning w))) ->
   In sc (_sessionConnections (manager w)) /\
   exists models, fst (listRunning (server w)) = Ok models /\
                  ~ In (sc_id sc) (map id models)).
Proof.
  rewrite requestRunning_events.
  destruct (fst (listRunning (server w))) as [models|err].
  - destruct (isDisposed (manager w) ||
              ends_run (models_unchanged (_models (manager w)) models)).
    + split; [intros m|]; intros [H|[]]; discriminate H.
    + set (fresh := JsMap.of_entries (map (fun x => (id x, x)) models)).
      split; [intros m|]; intros [H|H]; try discriminate H;
        apply in_app_iff in H; destruct H as [H|[H|[]]]; try discriminate H;
        apply reconcile_call_inv in H;
        destruct H as (c & Hc & [(m' & E & Hget)|(E & Hget)]); try discriminate E.
      * injection E as <- <-. split; [exact Hc|].
        unfold fresh, JsMap.of_entries in Hget.
        apply JsMapFacts.get_fold_set_in in Hget. destruct Hget as [Hin|Hget]; [|discriminate].
        apply in_map_iff in Hin. destruct Hin as (x & Hx & Hin). injection Hx as E1 E2.
        subst x. split; [auto | exists models; auto].
      * injection E as <-. split; [exact Hc|]. exists models. split; [reflexivity|].
        apply JsMapMore.get_None_keys in Hget. intros Hin. apply Hget.
        apply keys_of_fetched. exact Hin.
  - split; [intros m|]; destruct (is_connection_failure err);
      simpl; intros H; exfalso; intuition discriminate.
Qed.

(** X3: [requestRunning] emits running-changed only on a live manager,
    after a fetch that succeeded and failed the short-circuit test; the
    payload is the fetched list, the map is then [new Map] of that list,
    and this is the one running-changed notification of the run. *)
Theorem runningChanged_only_on_change (w : World) (payload : list IModel)
  (Hemit : In (RunningChanged payload) (new_events w (snd (requestRunning w)))) :
  isDisposed (manager w) = false /\
  fst (listRunning (server w)) = Ok payload /\
  models_unchanged (_models (manager w)) payload = Ok false /\
  _models (manager (snd (requestRunning w))) =
    JsMap.of_entries (map (fun x => (id x, x)) payload) /\
  filter is_RunningChanged (new_events w (snd (requestRunning w)))
  = [RunningChanged payload].
Proof.
  rewrite requestRunning_models. rewrite requestRunning_events in *.
  destruct (fst (listRunning (server w))) as [models|err].
  - destruct (isDisposed (manager w)) eqn:Hd; simpl in *.
    + destruct Hemit as [H|[]]. discriminate H.
    + destruct (models_unchanged (_models (manager w)) models) as [[|]|e] eqn:Hsame;
        simpl in *.
      * destruct Hemit as [H|[]]. discriminate H.
      * destruct Hemit as [H|H]; [discriminate H|].
        apply in_app_iff in H. destruct H as [H|[H|[]]].
        -- apply reconcile_call_inv in H.
           destruct H as (c & _ & [(m' & E & _)|(E & _)]); discriminate E.
        -- injection H as ->. simpl.
           rewrite filter_app, filter_reconcile_calls by reflexivity. auto.
      * destruct Hemit as [H|[]]. discriminate H.
  - exfalso. destruct (is_connection_failure err);
      simpl in Hemit; intuition discriminate.
Qed.

(** X4: on a disposed manager a run of [requestRunning] leaves the manager
    as it was, calls no connection and emits no running-changed
    notification, whatever the fetch returns; a fetch that fails with a
    network error or status 503 still emits the connection-failure
    notification, the disposed flag being read after the fetch has
    succeeded only. *)
Theorem requestRunning_when_disposed (w : World)
  (Hdisposed : isDisposed (manager w) = true) :
  manager (snd (requestRunning w)) = manager w /\
  filter (fun e => is_RunningChanged e || is_connection_call e)
         (new_events w (snd (requestRunning w))) = [] /\
  (forall e,
      fst (listRunning (server w)) = Err e ->
      is_connection_failure e = true ->
      new_events w (snd (requestRunning w)) = [ApiListRunning; ConnectionFailure e]).
Proof.
  rewrite requestRunning_events.
  destruct (listRunning (server w)) as [[models|err] srv] eqn:Hlist; simpl.
  - rewrite (requestRunning_disposed w Hlist Hdisposed), Hdisposed. simpl.
    repeat split. intros e H. discriminate H.
  - rewrite (requestRunning_failure w Hlist). simpl.
    split; [reflexivity|]. split.
    + destruct (is_connection_failure err); reflexivity.
    + intros e H Hcf. injection H as ->. rewrite Hcf. reflexivity.
Qed.

(** A map that passes the short-circuit test against a list without
    repeated ids holds the models of the list and no other. *)
Lemma unchanged_map_lists_fetched (current : JsMap.t) (models : list IModel) :
  models_unchanged current models = Ok true ->
  NoDup (map id models) ->
  NoDup (JsMap.keys current) ->
  forall m, In m (JsMap.values current) <-> In m models.
Proof.
  intros Hsame Hnd Hkeys m. apply models_unchanged_iff in Hsame.
  destruct Hsame as [Hsize Hget].
  assert (Hincl : incl (map id models) (JsMap.keys current)).
  { intros k Hk. apply in_map_iff in Hk. destruct Hk as (x & <- & Hx).
    change (id x) with (fst (id x, x)). apply in_map.
    apply JsMapMore.get_Some_In, Hget, Hx. }
  assert (Hback : incl (JsMap.keys current) (map id models)).
  { apply NoDup_length_incl; [exact Hnd | | exact Hincl].
    unfold JsMap.keys. rewrite !length_map. unfold JsMap.size in Hsize. lia. }
  split.
  - intros Hm. apply JsMapMore.In_values in Hm. destruct Hm as (k & Hk).
    assert (Hin : In k (map id models)).
    { apply Hback. change k with (fst (k, m)). apply in_map. exact Hk. }
    apply in_map_iff in Hin. destruct Hin as (x & <- & Hx).
    pose proof (JsMapMore.In_get _ _ _ Hkeys Hk) as E.
    rewrite (Hget x Hx) in E. injection E as <-. exact Hx.
  - intros Hm. apply JsMapMore.In_values. exists (id m).
    apply JsMapMore.get_Some_In, Hget, Hm.
Qed.

Lemma fresh_map_lists_fetched (models : list IModel) :
  NoDup (map id models) ->
  JsMap.values (JsMap.of_entries (map (fun x => (id x, x)) models)) = models.
Proof.
  intros Hnd. rewrite JsMapFacts.of_entries_NoDup by (rewrite map_map; exact Hnd).
  unfold JsMap.values. rewrite map_map. simpl. apply map_id.
Qed.

(** After a successful fetch of a list without repeated ids whose
    short-circuit test returns, a live manager lists the fetched models and
    no other. *)
Lemma requestRunning_lists_fetched (w : World) (models : list IModel) (b : bool) :
  fst (listRunning (server w)) = Ok models ->
  isDisposed (manager w) = false ->
  models_unchanged (_models (manager w)) models = Ok b ->
  NoDup (map id models) ->
  NoDup (JsMap.keys (_models (manager w))) ->
  forall m, In m (JsMap.values (_models (manager (snd (requestRunning w)))))
            <-> In m models.
Proof.
  intros Hlist Hlive Htest Hnd Hkeys m.
  rewrite requestRunning_models, Hlist, Hlive, Htest. simpl.
  destruct b; simpl.
  - apply unchanged_map_lists_fetched; assumption.
  - rewrite fresh_map_lists_fetched by exact Hnd. tauto.
Qed.

Lemma requestRunning_syncs_running_get (w : World) (models : list IModel) (b : bool) :
  fst (listRunning (server w)) = Ok models ->
  isDisposed (manager w) = false ->
  models_unchanged (_models (manager w)) models = Ok b ->
  NoDup (map id models) ->
  forall x, In x models ->
            JsMap.get (id x) (_models (manager (snd (requestRunning w)))) = Some x.
Proof.
  intros Hlist Hlive Htest Hnd x Hx.
  rewrite requestRunning_models, Hlist, Hlive, Htest. simpl.
  destruct b; simpl.
  - apply models_unchanged_iff in Htest. apply Htest, Hx.
  - rewrite JsMapFacts.of_entries_NoDup by (rewrite map_map; exact Hnd).
    apply JsMapFacts.get_entries_NoDup; assumption.
Qed.

(** A run of [requestRunning] resolves when the fetch succeeds and the
    short-circuit test, if reached, returns. *)
Lemma requestRunning_resolves (w : World) (models : list IModel) (b : bool) :
  fst (listRunning (server w)) = Ok models ->
  models_unchanged (_models (manager w)) models = Ok b ->
  fst (requestRunning w) = Ok tt.
Proof.
  intros Hlist Htest.
  destruct (listRunning (server w)) as [r srv] eqn:Hl. simpl in Hlist. subst r.
  destruct (isDisposed (manager w)) eqn:Hd.
  - rewrite (requestRunning_disposed w Hl Hd). reflexivity.
  - destruct b.
    + rewrite (requestRunning_short_circuit w Hl Hd Htest). reflexivity.
    + apply (requestRunning_replace_log w Hl Hd Htest).
Qed.

(** X5: when the fetch succeeds on a live manager, the fetched list has
    no repeated id and the short-circuit test returns (true or false; it
    throws on an equal-sized list where it meets an id the map lacks),
    [requestRunning] resolves and [running()] then lists exactly the
    fetched models, as many as were fetched, each found under its id,
    whether the map was replaced or kept by the test. *)
Theorem requestRunning_syncs_running (w : World) (models : list IModel) (b : bool)
  (Hlist : fst (listRunning (server w)) = Ok models)
  (Hlive : isDisposed (manager w) = false)
  (Htest : models_unchanged (_models (manager w)) models = Ok b)
  (Hnd : NoDup (map id models))
  (Hkeys : NoDup (JsMap.keys (_models (manager w)))) :
  let w' := snd (requestRunning w) in
  fst (requestRunning w) = Ok tt /\
  (forall m, In m (JsMap.values (_models (manager w'))) <-> In m models) /\
  JsMap.size (_models (manager w')) = List.length models /\
  (forall x, In x models -> JsMap.get (id x) (_models (manager w')) = Some x).
Proof.
  intros w'. subst w'.
  split; [exact (requestRunning_resolves w Hlist Htest)|].
  split; [exact (requestRunning_lists_fetched w Hlist Hlive Htest Hnd Hkeys)|].
  rewrite requestRunning_models, Hlist, Hlive, Htest. simpl.
  destruct b; simpl.
  - apply models_unchanged_iff in Htest. exact Htest.
  - rewrite JsMapFacts.of_entries_NoDup by (rewrite map_map; exact Hnd).
    split; [unfold JsMap.size; apply length_map|].
    intros x Hx. apply JsMapFacts.get_entries_NoDup; assumption.
Qed.

End FetchOutcome.

Lemma connection_calls_follow_fetch_witness :
  let w := test_world (serving [model_A'; model_B2]) manager_AB in
  (In conn_A (_sessionConnections (manager w)) /\
   id model_A' = sc_id conn_A /\
   exists models, fst (listRunning (server w)) = Ok models /\ In model_A' models) /\
  (In conn_B (_sessionConnections (manager w)) /\
   exists models, fst (listRunning (server w)) = Ok models /\
                  ~ In (sc_id conn_B) (map id models)).
Proof.
  intros w. split.
  - apply (proj1 (@connection_calls_follow_fetch test_collaborators w conn_A) model_A').
    vm_compute. auto.
  - apply (proj2 (@connection_calls_follow_fetch test_collaborators w conn_B)).
    vm_compute. auto.
Defined.

Lemma runningChanged_only_on_change_witness :
  let w := test_world (serving [model_A'; model_B2]) manager_AB in
  _models (manager (snd (requestRunning w))) = [("A", model_A'); ("B2", model_B2)] /\
  filter is_RunningChanged (new_events w (snd (requestRunning w)))
  = [RunningChanged [model_A'; model_B2]].
Proof.
  intros w.
  destruct (@runningChanged_only_on_change test_collaborators w [model_A'; model_B2])
    as (_ & _ & _ & Hm & Hone).
  - vm_compute. auto.
  - split; [exact Hm | exact Hone].
Defined.

Lemma requestRunning_when_disposed_witness :
  (let w := test_world (serving [model_A'; model_B2]) disposed_manager_AB in
   manager (snd (requestRunning w)) = disposed_manager_AB /\
   filter (fun e => is_RunningChanged e || is_connection_call e)
          (new_events w (snd (requestRunning w))) = []) /\
  (let w := test_world (failing_list error_network) disposed_manager_AB in
   new_events w (snd (requestRunning w)) = [ApiListRunning; ConnectionFailure error_network]).
Proof.
  split; intros w.
  - destruct (@requestRunning_when_disposed test_collaborators w eq_refl) as (H1 & H2 & _).
    split; [exact H1 | exact H2].
  - destruct (@requestRunning_when_disposed test_collaborators w eq_refl) as (_ & _ & H3).
    apply H3; reflexivity.
Defined.

Lemma requestRunning_syncs_running_witness :
  (let w := test_world (serving [model_B; model_A]) manager_AB in
   forall m, In m (JsMap.values (_models (manager (snd (requestRunning w)))))
             <-> In m [model_B; model_A]) /\
  (let w := test_world (serving [model_A'; model_C]) manager_AB in
   fst (requestRunning w) = Ok tt /\
   JsMap.size (_models (manager (snd (requestRunning w)))) = 2).
Proof.
  assert (Hkeys : NoDup (JsMap.keys (_models manager_AB)))
    by (repeat constructor; simpl; intuition discriminate).
  split; intros w.
  - apply (@requestRunning_syncs_running test_collaborators w [model_B; model_A] true).
    + reflexivity.
    + reflexivity.
    + reflexivity.
    + repeat constructor; simpl; intuition discriminate.
    + exact Hkeys.
  - destruct (@requestRunning_syncs_running test_collaborators w [model_A'; model_C] false)
      as (Hok & _ & Hsize & _).
    + reflexivity.
    + reflexivity.
    + reflexivity.
    + repeat constructor; simpl; intuition discriminate.
    + exact Hkeys.
    + split; [exact Hok | exact Hsize].
Defined.

(** ** Stopping sessions and resynchronising *)

Section Resync.

Context `{C : Collaborators}.

#[local] Arguments models_unchanged : simpl never.
#[local] Arguments JsMap.of_entries : simpl never.

(** Against the empty list the short-circuit test returns. *)
Lemma models_unchanged_nil (current : JsMap.t) :
  models_unchanged current [] = Ok (Nat.eqb (JsMap.size current) 0).
Proof.
  unfold models_unchanged. simpl. destruct (Nat.eqb (JsMap.size current) 0); reflexivity.
Qed.

(** A run of [requestRunning] disposes neither the manager nor the poll. *)
Lemma requestRunning_keeps_flags (w : World) :
  isDisposed (manager (snd (requestRunning w))) = isDisposed (manager w) /\
  poll_isDisposed (_pollModels (manager (snd (requestRunning w))))
  = poll_isDisposed (_pollModels (manager w)).
Proof.
  destruct (listRunning (server w)) as [[models|err] srv] eqn:Hlist.
  - destruct (isDisposed (manager w)) eqn:Hd.
    + rewrite (requestRunning_disposed w Hlist Hd). simpl. auto.
    + destruct (models_unchanged (_models (manager w)) models) as [[|]|e] eqn:Hsame.
      * rewrite (requestRunning_short_circuit w Hlist Hd Hsame). simpl. auto.
      * destruct (requestRunning_replace w Hlist Hd Hsame)
          as (g & Hrun & _ & Hd' & _ & Hp & _).
        rewrite Hrun. simpl. split; congruence.
      * rewrite (requestRunning_test_throws w Hlist Hd Hsame). simpl. auto.
  - rewrite (requestRunning_failure w Hlist). simpl. auto.
Qed.

Lemma refreshRunning_keeps_flags (w : World) :
  isDisposed (manager (snd (refreshRunning w))) = isDisposed (manager w) /\
  poll_isDisposed (_pollModels (manager (snd (refreshRunning w))))
  = poll_isDisposed (_pollModels (manager w)).
Proof.
  destruct (poll_isDisposed (_pollModels (manager w))) eqn:Hp.
  - rewrite (refreshRunning_poll_disposed w Hp). auto.
  - rewrite (refreshRunning_live w Hp).
    destruct (requestRunning_keeps_flags (poll_settled w)) as [H1 H2].
    rewrite H1, H2. simpl. auto.
Qed.

Lemma models_keyed_requestRunning (w : World) :
  models_keyed (_models (manager w)) ->
  models_keyed (_models (manager (snd (requestRunning w)))).
Proof.
  intros Hk. rewrite requestRunning_models.
  destruct (fst (listRunning (server w))) as [models|err]; [|exact Hk].
  destruct (isDisposed (manager w) ||
            ends_run (models_unchanged (_models (manager w)) models));
    [exact Hk | apply models_keyed_of_fetched].
Qed.

Lemma models_keyed_refreshRunning (w : World) :
  models_keyed (_models (manager w)) ->
  models_keyed (_models (manager (snd (refreshRunning w)))).
Proof.
  intros Hk. destruct (poll_isDisposed (_pollModels (manager w))) eqn:Hp.
  - rewrite (refreshRunning_poll_disposed w Hp). exact Hk.
  - rewrite (refreshRunning_live w Hp).
    apply (models_keyed_requestRunning (poll_settled w)). exact Hk.
Qed.

(** X6: on a live manager, when the stop call of [shutdown(k)] succeeds,
    the server then lists, without repeated ids, sessions none of which has
    the id [k], and the short-circuit test of the refresh returns (true or
    false; it throws on an equal-sized list where it meets an id the map
    lacks), [shutdown] resolves, [running()] lists exactly the sessions the
    server listed, and the map has no entry for [k]. *)
Theorem shutdown_removes_session (k : string) (w : World) (srv : Server)
  (models : list IModel) (b : bool)
  (Hpoll : poll_isDisposed (_pollModels (manager w)) = false)
  (Hlive : isDisposed (manager w) = false)
  (Hkeyed : models_keyed (_models (manager w)))
  (Hstop : shutdownSession k (server w) = (Ok tt, srv))
  (Hlist : fst (listRunning srv) = Ok models)
  (Htest : models_unchanged (_models (manager w)) models = Ok b)
  (Hnd : NoDup (map id models))
  (Hgone : ~ In k (map id models)) :
  let w' := snd (shutdown k w) in
  fst (shutdown k w) = Ok tt /\
  (forall m, In m (JsMap.values (_models (manager w'))) <-> In m models) /\
  JsMap.get k (_models (manager w')) = None.
Proof.
  intros w'. subst w'.
  rewrite (shutdown_stop_succeeds k w Hstop).
  set (w1 := {| server := srv; manager := manager w;
                trace := trace w ++ [ApiShutdownSession k] |}).
  rewrite (refreshRunning_live w1 Hpoll).
  assert (Hsync : forall m,
             In m (JsMap.values (_models (manager (snd (requestRunning (poll_settled w1))))))
             <-> In m models).
  { apply (requestRunning_lists_fetched (poll_settled w1) Hlist Hlive Htest Hnd).
    apply Hkeyed. }
  split; [apply (requestRunning_resolves (poll_settled w1) Hlist Htest)|].
  split; [exact Hsync|].
  destruct (JsMap.get k (_models (manager (snd (requestRunning (poll_settled w1))))))
    as [m|] eqn:Hget; [|reflexivity].
  exfalso. apply JsMapMore.get_Some_In in Hget.
  assert (Hk : models_keyed
                 (_models (manager (snd (requestRunning (poll_settled w1))))))
    by (apply models_keyed_requestRunning; exact Hkeyed).
  apply Hgone. rewrite <- (proj2 Hk k m Hget). apply in_map, Hsync.
  apply JsMapMore.In_values. exists k. exact Hget.
Qed.

Lemma filter_stop_events (ks : list string) :
  filter is_ApiShutdownSession (map ApiShutdownSession ks) = map ApiShutdownSession ks.
Proof. induction ks as [|k ks IH]; simpl; [reflexivity | rewrite IH; reflexivity]. Qed.

(** X7: on a live manager, when the first refresh of [shutdownAll]
    succeeds, every stop call succeeds and the server then lists no
    session, [shutdownAll] resolves with an empty map, so that [running()]
    lists nothing; the stop calls, one per id the first refresh left in the
    map and in the map's order, are the only stop calls made. *)
Theorem shutdownAll_clears_running (w w1 : World)
  (Hpoll : poll_isDisposed (_pollModels (manager w)) = false)
  (Hlive : isDisposed (manager w) = false)
  (Hrefresh : refreshRunning w = (Ok tt, w1))
  (Hok : first_error
           (fst (stop_each (JsMap.keys (_models (manager w1))) (server w1)))
         = None)
  (Hempty : fst (listRunning
                   (snd (stop_each (JsMap.keys (_models (manager w1))) (server w1))))
            = Ok []) :
  let w' := snd (shutdownAll w) in
  fst (shutdownAll w) = Ok tt /\
  _models (manager w') = JsMap.empty /\
  fst (running w') = Ok [] /\
  filter is_ApiShutdownSession (new_events w1 w')
  = map ApiShutdownSession (JsMap.keys (_models (manager w1))).
Proof.
  intros w'. subst w'.
  rewrite (shutdownAll_stops_succeed w Hrefresh Hok).
  set (ks := JsMap.keys (_models (manager w1))) in *.
  set (w2 := {| server := snd (stop_each ks (server w1)); manager := manager w1;
                trace := trace w1 ++ map ApiShutdownSession ks |}).
  assert (Hpoll1 : poll_isDisposed (_pollModels (manager w1)) = false).
  { pose proof (proj2 (refreshRunning_keeps_flags w)) as H.
    rewrite Hrefresh in H. simpl in H. congruence. }
  assert (Hlive1 : isDisposed (manager w1) = false).
  { pose proof (proj1 (refreshRunning_keeps_flags w)) as H.
    rewrite Hrefresh in H. simpl in H. congruence. }
  rewrite (refreshRunning_live w2 Hpoll1).
  assert (Hmap : _models (manager (snd (requestRunning (poll_settled w2)))) = JsMap.empty).
  { rewrite requestRunning_models. simpl. fold ks. rewrite Hempty, Hlive1.
    rewrite models_unchanged_nil. simpl.
    destruct (_models (manager w1)); reflexivity. }
  split; [apply (requestRunning_resolves (poll_settled w2) Hempty
                   (models_unchanged_nil _))|].
  split; [exact Hmap|]. split; [unfold running, gets; simpl; rewrite Hmap; reflexivity|].
  destruct (requestRunning_log (poll_settled w2)) as (evs & Htrace & _ & Hnone).
  simpl in Htrace. rewrite <- app_assoc in Htrace.
  rewrite (new_events_app w1 _ _ Htrace).
  rewrite filter_app, filter_stop_events. simpl. rewrite Hnone. apply app_nil_r.
Qed.

(** What the loop over the registry leaves of it. *)
Lemma reconciled_registry (current : JsMap.t) (l r : list SessionConn) :
  fold_left
    (fun r sc => if JsMap.has (sc_id sc) current then r else registry_delete sc r) l r
  = filter
      (fun c => negb (existsb
                        (fun sc => negb (JsMap.has (sc_id sc) current) &&
                                   Nat.eqb (sc_handle sc) (sc_handle c)) l)) r.
Proof.
  revert r; induction l as [|sc l IH]; intros r; simpl.
  - induction r as [|c r IHr]; simpl; [reflexivity | f_equal; exact IHr].
  - rewrite IH. destruct (JsMap.has (sc_id sc) current); simpl; [reflexivity|].
    unfold registry_delete.
    induction r as [|c r IHr]; simpl; [reflexivity|].
    rewrite (Nat.eqb_sym (sc_handle sc) (sc_handle c)).
    destruct (Nat.eqb (sc_handle c) (sc_handle sc)); simpl; [exact IHr|].
    destruct (existsb _ l); simpl; [exact IHr | f_equal; exact IHr].
Qed.

Lemma reconciled_registry_self (current : JsMap.t) (l : list SessionConn) :
  NoDup (map sc_handle l) ->
  fold_left
    (fun r sc => if JsMap.has (sc_id sc) current then r else registry_delete sc r) l l
  = filter (fun c => JsMap.has (sc_id c) current) l.
Proof.
  intros Hnd. rewrite reconciled_registry. apply filter_ext_in. intros c Hc.
  destruct (JsMap.has (sc_id c) current) eqn:Hhas.
  - apply negb_true_iff. destruct (existsb _ l) eqn:E; [|reflexivity].
    apply existsb_exists in E. destruct E as (sc & Hsc & E).
    apply andb_true_iff in E. destruct E as [Habsent Heq].
    apply Nat.eqb_eq in Heq.
    assert (sc = c).
    { clear - Hnd Hsc Hc Heq. induction l as [|x l IH]; simpl in *; [tauto|].
      inversion Hnd as [|? ? Hx Hnd']; subst.
      destruct Hsc as [->|Hsc], Hc as [->|Hc]; auto.
      - exfalso. apply Hx. rewrite Heq. apply in_map, Hc.
      - exfalso. apply Hx. rewrite <- Heq. apply in_map, Hsc. }
    subst sc. rewrite Hhas in Habsent. discriminate Habsent.
  - apply negb_false_iff. apply existsb_exists. exists c. split; [exact Hc|].
    rewrite Hhas, Nat.eqb_refl. reflexivity.
Qed.

(** X8: after a fetch that replaces the map, the registry holds, in their
    order, exactly the connections whose id the new map has: every
    connection that was disposed has left it, every one that was updated
    is still in it. *)
Theorem requestRunning_prunes_registry (w : World) (models : list IModel) (srv : Server)
  (Hlist : listRunning (server w) = (Ok models, srv))
  (Hlive : isDisposed (manager w) = false)
  (Hdiff : models_unchanged (_models (manager w)) models = Ok false)
  (Hset : NoDup (map sc_handle (_sessionConnections (manager w)))) :
  _sessionConnections (manager (snd (requestRunning w))) =
    filter (fun sc => existsb (fun x => String.eqb (id x) (sc_id sc)) models)
           (_sessionConnections (manager w)).
Proof.
  destruct (requestRunning_replace w Hlist Hlive Hdiff) as (g & Hrun & _ & _ & _ & _ & Hr).
  rewrite Hrun. simpl. rewrite Hr, reconciled_registry_self by exact Hset.
  apply filter_ext. intros sc.
  set (fresh := JsMap.of_entries (map (fun x => (id x, x)) models)).
  destruct (existsb (fun x => String.eqb (id x) (sc_id sc)) models) eqn:E.
  - apply existsb_exists in E. destruct E as (x & Hx & E). apply String.eqb_eq in E.
    unfold JsMap.has. destruct (JsMap.get (sc_id sc) fresh) eqn:Hget; [reflexivity|].
    exfalso. apply JsMapMore.get_None_keys in Hget. apply Hget.
    apply keys_of_fetched. rewrite <- E. apply in_map, Hx.
  - unfold JsMap.has. destruct (JsMap.get (sc_id sc) fresh) eqn:Hget; [|reflexivity].
    exfalso. assert (Hin : In (sc_id sc) (map id models)).
    { apply keys_of_fetched. fold fresh.
      apply JsMapMore.get_Some_In in Hget.
      change (sc_id sc) with (fst (sc_id sc, i)). apply in_map. exact Hget. }
    apply in_map_iff in Hin. destruct Hin as (x & Hx & Hin).
    assert (Ht : existsb (fun x => String.eqb (id x) (sc_id sc)) models = true).
    { apply existsb_exists. exists x. split; [exact Hin | apply String.eqb_eq, Hx]. }
    congruence.
Qed.

End Resync.

Lemma shutdown_removes_session_witness :
  let w := test_world (serving [model_A; model_B]) manager_AB in
  fst (shutdown "A" w) = Ok tt /\
  (forall m, In m (JsMap.values (_models (manager (snd (shutdown "A" w)))))
             <-> In m [model_B]) /\
  JsMap.get "A" (_models (manager (snd (shutdown "A" w)))) = None.
Proof.
  intros w.
  apply (@shutdown_removes_session test_collaborators "A" w (serving [model_B]) [model_B]
           false).
  - reflexivity.
  - reflexivity.
  - apply manager_wf_manager_AB.
  - reflexivity.
  - reflexivity.
  - reflexivity.
  - repeat constructor; simpl; intuition discriminate.
  - simpl. intuition discriminate.
Defined.

Lemma shutdownAll_clears_running_witness :
  let w := test_world (serving [model_A; model_B]) manager_AB in
  fst (shutdownAll w) = Ok tt /\
  _models (manager (snd (shutdownAll w))) = JsMap.empty /\
  fst (running (snd (shutdownAll w))) = Ok [] /\
  filter is_ApiShutdownSession (new_events (snd (refreshRunning w)) (snd (shutdownAll w)))
  = [ApiShutdownSession "A"; ApiShutdownSession "B"].
Proof.
  intros w.
  exact (@shutdownAll_clears_running test_collaborators w (snd (refreshRunning w))
           eq_refl eq_refl eq_refl eq_refl eq_refl).
Defined.

Lemma requestRunning_prunes_registry_witness :
  let w := test_world (serving [model_A'; model_B2]) manager_AB in
  _sessionConnections (manager (snd (requestRunning w))) = [conn_A].
Proof.
  intros w.
  apply (@requestRunning_prunes_registry test_collaborators w [model_A'; model_B2]
           (serving [model_A'; model_B2])).
  - reflexivity.
  - reflexivity.
  - reflexivity.
  - repeat constructor; simpl; intuition discriminate.
Defined.

(** ** [stopIfNeeded], [findById], [findByPath] *)

Section Lookup.

Context `{C : Collaborators}.

(** The log of a refresh has no stop call. *)
Lemma refreshRunning_no_stop (w : World) :
  exists evs,
    trace (snd (refreshRunning w)) = trace w ++ evs /\
    filter is_ApiShutdownSession evs = [].
Proof.
  destruct (poll_isDisposed (_pollModels (manager w))) eqn:Hp.
  - rewrite (refreshRunning_poll_disposed w Hp). exists []. simpl.
    rewrite app_nil_r. auto.
  - destruct (refreshRunning_log w Hp) as (evs & Htrace & _ & Hnone).
    exists (ApiListRunning :: evs). simpl. auto.
Qed.

(** The log of [stopIfNeeded], by the outcome of the listing. *)
Lemma stopIfNeeded_log (p : string) (w : World) :
  exists evs,
    new_events w (snd (stopIfNeeded p w)) = ApiListRunning :: evs /\
    (filter is_ApiShutdownSession evs = [] \/
     exists sessions m,
       fst (listRunning (server w)) = Ok sessions /\
       filter (fun value => String.eqb (path value) p) sessions = [m] /\
       filter is_ApiShutdownSession evs = [ApiShutdownSession (id m)]).
Proof.
  unfold stopIfNeeded, try_catch, bind, api_listRunning, ret.
  destruct (listRunning (server w)) as [[sessions|e] srv] eqn:Hlist; simpl.
  - set (listed := {| server := srv; manager := manager w;
                      trace := trace w ++ [ApiListRunning] |}).
    destruct (filter (fun value => String.eqb (path value) p) sessions)
      as [|m [|m2 rest]] eqn:Hmatches; simpl.
    + exists []. split; [apply new_events_app; reflexivity | auto].
    + assert (Hsnd : snd (match shutdown (id m) listed with
                          | (Ok a, w') => (Ok a, w')
                          | (Err _, w') => (Ok tt, w')
                          end) = snd (shutdown (id m) listed))
        by (destruct (shutdown (id m) listed) as [[[]|e] w']; reflexivity).
      rewrite Hsnd. clear Hsnd.
      destruct (shutdownSession (id m) srv) as [[[]|e] srv'] eqn:Hstop.
      * rewrite (shutdown_stop_succeeds (id m) listed (srv:=srv')) by exact Hstop.
        set (stopped := {| server := srv'; manager := manager listed;
                           trace := trace listed ++ [ApiShutdownSession (id m)] |}).
        destruct (refreshRunning_no_stop stopped) as (evs & Htrace & Hnone).
        exists (ApiShutdownSession (id m) :: evs). split.
        -- apply new_events_app. rewrite Htrace. simpl.
           rewrite <- !app_assoc. reflexivity.
        -- right. exists sessions, m. simpl. rewrite Hnone. auto.
      * rewrite (shutdown_stop_fails (id m) listed (e:=e) (srv:=srv')) by exact Hstop.
        eexists. split; [apply new_events_app; simpl; rewrite <- app_assoc; reflexivity|].
        right. exists sessions, m. auto.
    + exists []. split; [apply new_events_app; reflexivity | auto].
  - exists []. split; [apply new_events_app; reflexivity | auto].
Qed.

(** X9: whatever the server answers, [stopIfNeeded] makes at most one stop
    call, and a stop call it makes is for the one session of the fresh
    listing whose path is the argument. *)
Theorem stopIfNeeded_stops_at_most_one (p : string) (w : World) :
  List.length (filter is_ApiShutdownSession (new_events w (snd (stopIfNeeded p w)))) <= 1 /\
  (forall k,
      In (ApiShutdownSession k) (new_events w (snd (stopIfNeeded p w))) ->
      exists sessions m,
        fst (listRunning (server w)) = Ok sessions /\
        filter (fun value => String.eqb (path value) p) sessions = [m] /\
        id m = k).
Proof.
  destruct (stopIfNeeded_log p w) as (evs & Hev & Hstops). rewrite Hev. simpl.
  split.
  - destruct Hstops as [->|(sessions & m & _ & _ & ->)]; simpl; lia.
  - intros k [H|H]; [discriminate H|].
    assert (Hin : In (ApiShutdownSession k) (filter is_ApiShutdownSession evs))
      by (apply filter_In; auto).
    destruct Hstops as [E|(sessions & m & Hlist & Hm & E)]; rewrite E in Hin.
    + destruct Hin.
    + destruct Hin as [Hin|[]]. injection Hin as <-. eauto.
Qed.

(** X10: when [findById] or [findByPath] resolves, its result is what the
    same lookup gives on the map the call leaves, whether it was served by
    the map or after a refresh; a model found by path has that path, and,
    on a map that holds each model under its own id, a model found by id
    has that id and is listed by [running()]. *)
Theorem find_result_is_current (w : World) :
  (forall k r w',
      findById k w = (Ok r, w') -> r = JsMap.get k (_models (manager w'))) /\
  (forall p r w',
      findByPath p w = (Ok r, w') ->
      r = find (fun m => String.eqb (path m) p) (JsMap.values (_models (manager w'))) /\
      forall m, r = Some m -> path m = p /\ In m (JsMap.values (_models (manager w')))) /\
  (models_keyed (_models (manager w)) ->
   forall k m w',
     findById k w = (Ok (Some m), w') ->
     id m = k /\ In m (JsMap.values (_models (manager w')))).
Proof.
  assert (Hid : forall k r w',
             findById k w = (Ok r, w') -> r = JsMap.get k (_models (manager w'))).
  { intros k r w'. unfold findById, bind, gets, ret, JsMap.has.
    destruct (JsMap.get k (_models (manager w))) as [m|] eqn:Hget.
    - intros H. injection H as <- <-. auto.
    - destruct (refreshRunning w) as [[[]|e] w1]; intros H; [|discriminate H].
      injection H as <- <-. reflexivity. }
  split; [exact Hid|]. split.
  - intros p r w' Hrun.
    assert (E : r = find (fun m => String.eqb (path m) p)
                         (JsMap.values (_models (manager w')))).
    { revert Hrun. unfold findByPath, bind, gets, ret.
      destruct (find _ (JsMap.values (_models (manager w)))) as [m|] eqn:Hfind.
      - intros H. injection H as <- <-. auto.
      - destruct (refreshRunning w) as [[[]|e] w1]; intros H; [|discriminate H].
        injection H as <- <-. reflexivity. }
    split; [exact E|]. intros m Hm. rewrite Hm in E. symmetry in E.
    apply find_some in E. destruct E as [Hin Hp]. apply String.eqb_eq in Hp. auto.
  - intros Hkeyed k m w' Hrun.
    assert (Hk : models_keyed (_models (manager w'))).
    { revert Hrun. unfold findById, bind, gets, ret.
      destruct (JsMap.has k (_models (manager w))).
      - intros H. injection H as _ <-. exact Hkeyed.
      - pose proof (models_keyed_refreshRunning w Hkeyed) as Hk.
        destruct (refreshRunning w) as [[[]|e] w1]; intros H; [|discriminate H].
        injection H as _ <-. exact Hk. }
    apply Hid in Hrun. symmetry in Hrun. apply JsMapMore.get_Some_In in Hrun.
    split; [exact (proj2 Hk k m Hrun)|]. apply JsMapMore.In_values. eauto.
Qed.

End Lookup.

Lemma stopIfNeeded_stops_at_most_one_witness :
  let w := test_world (serving [model_A; model_B]) manager_AB in
  exists sessions m,
    fst (listRunning (server w)) = Ok sessions /\
    filter (fun value => String.eqb (path value) "/b.ipynb") sessions = [m] /\
    id m = "B".
Proof.
  intros w.
  apply (proj2 (@stopIfNeeded_stops_at_most_one test_collaborators "/b.ipynb" w) "B").
  vm_compute. auto.
Defined.

Lemma find_result_is_current_witness :
  let w := test_world (serving [model_A; model_B; model_C]) manager_AB in
  id model_C = "C" /\
  In model_C (JsMap.values (_models (manager (snd (findById "C" w))))).
Proof.
  intros w.
  apply (proj2 (proj2 (@find_result_is_current test_collaborators w))
           (proj1 manager_wf_manager_AB) "C" model_C (snd (findById "C" w))).
  reflexivity.
Defined.

(** ** [connectTo], [startNew], [dispose] *)

Section Connections.

Context `{St : SessionStarter}.

(** X11: [connectTo] resolves at once with a new connection bound to the
    model's id and puts it last in the registry; it calls neither the
    server nor any connection, emits nothing and leaves the map as it is.
    It asks the poll for a refresh exactly when the map has no entry for
    the model's id. *)
Theorem connectTo_trusts_caller (model : IModel) (w : World)
  (Hwf : registry_wf (manager w)) :
  let sc := {| sc_handle := next_handle (manager w); sc_id := id model |} in
  let w' := snd (connectTo model w) in
  fst (connectTo model w) = Ok sc /\
  server w' = server w /\
  trace w' = trace w /\
  _models (manager w') = _models (manager w) /\
  isDisposed (manager w') = isDisposed (manager w) /\
  _sessionConnections (manager w') = _sessionConnections (manager w) ++ [sc] /\
  _pollModels (manager w') =
    (if JsMap.has (id model) (_models (manager w)) ||
        poll_isDisposed (_pollModels (manager w))
     then _pollModels (manager w)
     else {| poll_isDisposed := false; poll_pending := true |}).
Proof.
  intros sc w'. subst w'.
  assert (Hfresh : existsb (fun c => Nat.eqb (sc_handle c) (next_handle (manager w)))
                     (_sessionConnections (manager w)) = false).
  { destruct (existsb _ _) eqn:E; [|reflexivity].
    apply existsb_exists in E. destruct E as (c & Hc & E).
    apply Nat.eqb_eq in E. pose proof (proj2 Hwf c Hc). lia. }
  unfold connectTo, _onStarted, void_refreshRunning, poll_refresh,
    bind, gets, modify, ret, registry_add.
  simpl. rewrite Hfresh.
  destruct (JsMap.has (id model) (_models (manager w))); simpl.
  - repeat split.
  - destruct (poll_isDisposed (_pollModels (manager w))) eqn:Hp; simpl;
      rewrite ?Hp; repeat split.
Qed.

(** X12: a connection made by [connectTo] and then disposed by its owner
    leaves the registry as it was before the two calls; the map is
    untouched and the [dispose] of the connection is the one call
    logged. *)
Theorem connect_then_dispose (model : IModel) (w : World)
  (Hwf : registry_wf (manager w)) :
  let sc := {| sc_handle := next_handle (manager w); sc_id := id model |} in
  let w' := snd (sc_dispose sc (snd (connectTo model w))) in
  fst (connectTo model w) = Ok sc /\
  _sessionConnections (manager w') = _sessionConnections (manager w) /\
  _models (manager w') = _models (manager w) /\
  new_events w w' = [ScDispose sc].
Proof.
  intros sc w'. subst w'.
  destruct (connectTo_registers model w Hwf) as (Hsc & Hreg & Hm & Htrace & _).
  fold sc in Hsc, Hreg.
  destruct (sc_dispose_step sc (snd (connectTo model w)))
    as (g & Hstep & Hm' & _ & _ & Hr).
  rewrite Hstep. simpl. split; [exact Hsc|]. split; [|split; [congruence|]].
  - rewrite Hr, Hreg. unfold registry_delete. rewrite filter_app. simpl.
    rewrite Nat.eqb_refl. simpl. rewrite app_nil_r.
    apply forallb_filter_id. apply forallb_forall. intros c Hc.
    apply negb_true_iff, Nat.eqb_neq. pose proof (proj2 Hwf c Hc). lia.
  - apply new_events_app. simpl. rewrite Htrace. reflexivity.
Qed.

(** X13: a second [dispose] changes nothing and calls no connection: the
    connections left the registry when the first one disposed them. *)
Theorem dispose_twice (w : World) :
  dispose (snd (dispose w)) = (Ok tt, snd (dispose w)).
Proof.
  rewrite (dispose_outcome (snd (dispose w))), (dispose_outcome w). simpl.
  rewrite app_nil_r. reflexivity.
Qed.

(** X14: [startNew] fails with the error of the start call, making no
    fetch and no connection; when the start call succeeds and the refresh
    fails, it fails with the error of the refresh and makes no connection;
    when both succeed it resolves with a new connection bound to the id of
    the started session, put last in the registry the refresh left. *)
Theorem startNew_outcomes (options : Options) (w : World) :
  (forall e srv,
      startSession options (server w) = (Err e, srv) ->
      startNew options w =
        (Err e, {| server := srv; manager := manager w; trace := trace w |})) /\
  (forall model srv,
      startSession options (server w) = (Ok model, srv) ->
      let started := {| server := srv; manager := manager w; trace := trace w |} in
      (forall e w1,
          refreshRunning started = (Err e, w1) ->
          startNew options w = (Err e, w1)) /\
      (forall w1,
          refreshRunning started = (Ok tt, w1) ->
          registry_wf (manager w) ->
          let sc := {| sc_handle := next_handle (manager w1); sc_id := id model |} in
          fst (startNew options w) = Ok sc /\
          _sessionConnections (manager (snd (startNew options w)))
          = _sessionConnections (manager w1) ++ [sc] /\
          _models (manager (snd (startNew options w))) = _models (manager w1) /\
          trace (snd (startNew options w)) = trace w1)).
Proof.
  split.
  - intros e srv Hstart. unfold startNew, bind, api_startSession. rewrite Hstart.
    reflexivity.
  - intros model srv Hstart started. split.
    + intros e w1 Hrefresh. unfold startNew, bind, api_startSession.
      rewrite Hstart. fold started. rewrite Hrefresh. reflexivity.
    + intros w1 Hrefresh Hwf sc.
      assert (Hrun : startNew options w = connectTo model w1).
      { unfold startNew, bind, api_startSession. rewrite Hstart. fold started.
        rewrite Hrefresh. reflexivity. }
      rewrite Hrun.
      assert (Hwf1 : registry_wf (manager w1)).
      { pose proof (registry_wf_refreshRunning started Hwf) as H.
        rewrite Hrefresh in H. exact H. }
      destruct (connectTo_registers model w1 Hwf1) as (H1 & H2 & H3 & H4 & _).
      auto.
Qed.

End Connections.

Lemma connectTo_trusts_caller_witness :
  let w := test_world (serving [model_A; model_B]) manager_AB in
  fst (connectTo model_C w) = Ok {| sc_handle := 2; sc_id := "C" |} /\
  _sessionConnections (manager (snd (connectTo model_C w)))
  = [conn_A; conn_B; {| sc_handle := 2; sc_id := "C" |}] /\
  _pollModels (manager (snd (connectTo model_C w)))
  = {| poll_isDisposed := false; poll_pending := true |} /\
  _pollModels (manager (snd (connectTo model_A w)))
  = {| poll_isDisposed := false; poll_pending := false |}.
Proof.
  intros w.
  destruct (@connectTo_trusts_caller test_collaborators model_C w
              (proj2 manager_wf_manager_AB)) as (H1 & _ & _ & _ & _ & H2 & H3).
  destruct (@connectTo_trusts_caller test_collaborators model_A w
              (proj2 manager_wf_manager_AB)) as (_ & _ & _ & _ & _ & _ & H4).
  split; [exact H1 | split; [exact H2 | split; [exact H3 | exact H4]]].
Defined.

Lemma connect_then_dispose_witness :
  let w := test_world (serving [model_A; model_B]) manager_AB in
  let sc := {| sc_handle := 2; sc_id := "C" |} in
  _sessionConnections (manager (snd (sc_dispose sc (snd (connectTo model_C w)))))
  = [conn_A; conn_B] /\
  new_events w (snd (sc_dispose sc (snd (connectTo model_C w)))) = [ScDispose sc].
Proof.
  intros w sc.
  destruct (@connect_then_dispose test_collaborators model_C w
              (proj2 manager_wf_manager_AB)) as (_ & H1 & _ & H2).
  split; [exact H1 | exact H2].
Defined.

Lemma startNew_outcomes_witness :
  (let w := test_world (serving [model_A; model_B]) manager_AB in
   startNew model_nowhere w = (Err error_500, w)) /\
  (let w := test_world (serving [model_A; model_B]) manager_AB in
   fst (startNew model_C w) = Ok {| sc_handle := 2; sc_id := "C" |} /\
   _sessionConnections (manager (snd (startNew model_C w)))
   = [conn_A; conn_B; {| sc_handle := 2; sc_id := "C" |}] /\
   _models (manager (snd (startNew model_C w)))
   = [("A", model_A); ("B", model_B); ("C", model_C)]).
Proof.
  split; intros w.
  - exact (proj1 (@startNew_outcomes test_collaborators test_starter model_nowhere w)
             error_500 (serving [model_A; model_B]) eq_refl).
  - destruct (proj2 (@startNew_outcomes test_collaborators test_starter model_C w)
                model_C (serving [model_A; model_B; model_C]) eq_refl) as (_ & Hok).
    destruct (Hok (snd (refreshRunning
                          (test_world (serving [model_A; model_B; model_C]) manager_AB)))
                eq_refl (proj2 manager_wf_manager_AB)) as (H1 & H2 & H3 & _).
    split; [exact H1 | split; [exact H2 | exact H3]].
Defined.

(** ** Lookups and connections against the server's list *)

Section AgainstServer.

Context `{C : Collaborators}.

#[local] Arguments models_unchanged : simpl never.
#[local] Arguments JsMap.of_entries : simpl never.

(** After a successful fetch of a list without repeated ids whose
    short-circuit test returns, the map of a live manager has no entry for
    an id the list does not have. *)
Lemma requestRunning_forgets_unlisted (w : World) (models : list IModel) (b : bool)
      (k : string) :
  fst (listRunning (server w)) = Ok models ->
  isDisposed (manager w) = false ->
  models_unchanged (_models (manager w)) models = Ok b ->
  NoDup (map id models) ->
  models_keyed (_models (manager w)) ->
  ~ In k (map id models) ->
  JsMap.get k (_models (manager (snd (requestRunning w)))) = None.
Proof.
  intros Hlist Hlive Htest Hnd Hkeyed Hgone.
  destruct (JsMap.get k (_models (manager (snd (requestRunning w))))) as [m|] eqn:Hget;
    [|reflexivity].
  exfalso. apply JsMapMore.get_Some_In in Hget.
  pose proof (models_keyed_requestRunning w Hkeyed) as Hk.
  apply Hgone. rewrite <- (proj2 Hk k m Hget). apply in_map.
  apply (requestRunning_lists_fetched w Hlist Hlive Htest Hnd (proj1 Hkeyed)).
  apply JsMapMore.In_values. exists k. exact Hget.
Qed.

(** X15: on a live manager whose map has no entry for [k], when the server
    lists sessions without repeated ids and the short-circuit test of the
    refresh returns (it throws on an equal-sized list where it meets an id
    the map lacks), [findById(k)] resolves with the listed session whose id
    is [k], and with nothing when no listed session has that id. *)
Theorem findById_follows_server (k : string) (w : World) (models : list IModel)
  (b : bool)
  (Hpoll : poll_isDisposed (_pollModels (manager w)) = false)
  (Hlive : isDisposed (manager w) = false)
  (Hkeyed : models_keyed (_models (manager w)))
  (Hmiss : JsMap.get k (_models (manager w)) = None)
  (Hlist : fst (listRunning (server w)) = Ok models)
  (Htest : models_unchanged (_models (manager w)) models = Ok b)
  (Hnd : NoDup (map id models)) :
  (forall x, In x models -> id x = k -> fst (findById k w) = Ok (Some x)) /\
  (~ In k (map id models) -> fst (findById k w) = Ok None).
Proof.
  assert (Hrun : findById k w =
            (Ok (JsMap.get k (_models (manager (snd (requestRunning (poll_settled w)))))),
             snd (requestRunning (poll_settled w)))).
  { unfold findById, bind, gets, ret, JsMap.has. rewrite Hmiss.
    rewrite (refreshRunning_live w Hpoll).
    pose proof (requestRunning_resolves (poll_settled w) Hlist Htest) as Hok.
    destruct (requestRunning (poll_settled w)) as [[[]|e] w1]; simpl in *;
      [reflexivity | discriminate Hok]. }
  rewrite Hrun. simpl. split.
  - intros x Hx <-. f_equal.
    apply (requestRunning_syncs_running_get (poll_settled w) Hlist Hlive Htest Hnd).
    exact Hx.
  - intros Hgone. f_equal.
    apply (requestRunning_forgets_unlisted (poll_settled w) k Hlist Hlive Htest Hnd
             Hkeyed Hgone).
Qed.

(** X16: after [connectTo] of a model whose id neither the map nor the
    server's list has, the next run of [requestRunning] disposes the new
    connection and takes it out of the registry when the short-circuit
    test returns false.  When the test returns true the run ends there,
    and when it throws the run rejects there: either way the connection
    stays registered without any call. *)
Theorem connectTo_unknown_then_fetch (model : IModel) (w : World)
  (models : list IModel) (srv : Server)
  (Hwf : registry_wf (manager w))
  (Hlive : isDisposed (manager w) = false)
  (Hlist : listRunning (server w) = (Ok models, srv))
  (Hunknown : ~ In (id model) (map id models)) :
  let sc := {| sc_handle := next_handle (manager w); sc_id := id model |} in
  let w1 := snd (connectTo model w) in
  let w2 := snd (requestRunning w1) in
  (models_unchanged (_models (manager w)) models = Ok true ->
   fst (requestRunning w1) = Ok tt /\
   new_events w1 w2 = [ApiListRunning] /\
   _sessionConnections (manager w2) = _sessionConnections (manager w) ++ [sc]) /\
  (models_unchanged (_models (manager w)) models = Ok false ->
   fst (requestRunning w1) = Ok tt /\
   In (ScDispose sc) (new_events w1 w2) /\
   ~ In sc (_sessionConnections (manager w2))) /\
  (forall e,
      models_unchanged (_models (manager w)) models = Err e ->
      fst (requestRunning w1) = Err e /\
      new_events w1 w2 = [ApiListRunning] /\
      _sessionConnections (manager w2) = _sessionConnections (manager w) ++ [sc]).
Proof.
  intros sc w1 w2. subst w1 w2.
  destruct (connectTo_registers model w Hwf) as (_ & Hreg & Hm & _ & Hwf1).
  fold sc in Hreg.
  assert (Hsrv : server (snd (connectTo model w)) = server w).
  { unfold connectTo, _onStarted, void_refreshRunning, poll_refresh,
      bind, gets, modify, ret. simpl.
    destruct (JsMap.has (id model) (_models (manager w))); reflexivity. }
  assert (Hd1 : isDisposed (manager (snd (connectTo model w))) = false).
  { unfold connectTo, _onStarted, void_refreshRunning, poll_refresh,
      bind, gets, modify, ret. simpl.
    destruct (JsMap.has (id model) (_models (manager w))); simpl; [exact Hlive|].
    destruct (poll_isDisposed (_pollModels (manager w))); exact Hlive. }
  set (w1 := snd (connectTo model w)) in *.
  assert (Hlist1 : listRunning (server w1) = (Ok models, srv)) by (rewrite Hsrv; exact Hlist).
  rewrite <- Hm.
  split; [|split].
  - intros Hsame.
    rewrite (requestRunning_short_circuit w1 Hlist1 Hd1 Hsame). simpl.
    split; [reflexivity|]. split; [apply new_events_app; reflexivity | exact Hreg].
  - intros Hsame.
    destruct (requestRunning_replace w1 Hlist1 Hd1 Hsame)
      as (g & Hrun & _ & _ & _ & _ & Hr).
    set (fresh := JsMap.of_entries (map (fun x => (id x, x)) models)) in *.
    assert (Hnone : JsMap.get (sc_id sc) fresh = None).
    { apply JsMapMore.get_None_keys. intros Hin. apply Hunknown.
      apply keys_of_fetched. exact Hin. }
    rewrite Hrun. simpl. split; [reflexivity|]. split.
    + erewrite new_events_app by reflexivity.
      right. apply in_or_app. left. rewrite Hreg, map_app. apply in_or_app. right.
      simpl. left. unfold reconcile_call. rewrite Hnone. reflexivity.
    + rewrite Hr, reconciled_registry_self by apply Hwf1.
      intros Hin. apply filter_In in Hin. destruct Hin as [_ Hhas].
      unfold JsMap.has in Hhas. rewrite Hnone in Hhas. discriminate Hhas.
  - intros e Hthrow.
    rewrite (requestRunning_test_throws w1 Hlist1 Hd1 Hthrow). simpl.
    split; [reflexivity|]. split; [apply new_events_app; reflexivity | exact Hreg].
Qed.

End AgainstServer.

Lemma findById_follows_server_witness :
  let w := test_world (serving [model_A; model_B; model_C]) manager_AB in
  fst (findById "C" w) = Ok (Some model_C) /\
  fst (findById "Z" w) = Ok None.
Proof.
  intros w.
  assert (Hnd : NoDup (map id [model_A; model_B; model_C]))
    by (repeat constructor; simpl; intuition discriminate).
  split.
  - apply (proj1 (@findById_follows_server test_collaborators "C" w
                    [model_A; model_B; model_C] false eq_refl eq_refl
                    (proj1 manager_wf_manager_AB) eq_refl eq_refl eq_refl Hnd) model_C).
    + simpl. auto.
    + reflexivity.
  - apply (proj2 (@findById_follows_server test_collaborators "Z" w
                    [model_A; model_B; model_C] false eq_refl eq_refl
                    (proj1 manager_wf_manager_AB) eq_refl eq_refl eq_refl Hnd)).
    simpl. intuition discriminate.
Defined.

Lemma connectTo_unknown_then_fetch_witness :
  (let w := test_world (serving [model_A; model_B]) manager_AB in
   let w1 := snd (connectTo model_C w) in
   new_events w1 (snd (requestRunning w1)) = [ApiListRunning] /\
   _sessionConnections (manager (snd (requestRunning w1)))
   = [conn_A; conn_B; {| sc_handle := 2; sc_id := "C" |}]) /\
  (let w := test_world (serving [model_A'; model_B]) manager_AB in
   let w1 := snd (connectTo model_C w) in
   In (ScDispose {| sc_handle := 2; sc_id := "C" |})
      (new_events w1 (snd (requestRunning w1))) /\
   ~ In {| sc_handle := 2; sc_id := "C" |}
        (_sessionConnections (manager (snd (requestRunning w1))))) /\
  (let w := test_world (serving [model_A; model_B2]) manager_AB in
   let w1 := snd (connectTo model_C w) in
   fst (requestRunning w1) = Err deepEqual_TypeError /\
   _sessionConnections (manager (snd (requestRunning w1)))
   = [conn_A; conn_B; {| sc_handle := 2; sc_id := "C" |}]).
Proof.
  split; [|split]; intros w.
  - destruct (proj1 (@connectTo_unknown_then_fetch test_collaborators model_C w
                       [model_A; model_B] (serving [model_A; model_B])
                       (proj2 manager_wf_manager_AB) eq_refl eq_refl
                       ltac:(simpl; intuition discriminate)) eq_refl)
      as (_ & H1 & H2).
    split; [exact H1 | exact H2].
  - destruct (proj1 (proj2 (@connectTo_unknown_then_fetch test_collaborators model_C w
                       [model_A'; model_B] (serving [model_A'; model_B])
                       (proj2 manager_wf_manager_AB) eq_refl eq_refl
                       ltac:(simpl; intuition discriminate))) eq_refl)
      as (_ & H1 & H2).
    split; [exact H1 | exact H2].
  - destruct (proj2 (proj2 (@connectTo_unknown_then_fetch test_collaborators model_C w
                       [model_A; model_B2] (serving [model_A; model_B2])
                       (proj2 manager_wf_manager_AB) eq_refl eq_refl
                       ltac:(simpl; intuition discriminate))) deepEqual_TypeError eq_refl)
      as (H1 & _ & H2).
    split; [exact H1 | exact H2].
Defined.

(** ** [shutdown] and the refresh that follows it *)

Section ShutdownResync.

Context `{C : Collaborators}.


End ShutdownResync.

